(** * trie_index/storage.py: the persistent trie over a file of fixed-size records

    A shallow embedding of [PersistentTrie] and [prefix_search].  The backing
    file is a list of bytes together with the position of the file handle;
    every method is a function in a state-and-exception monad over that file.
    Python exceptions are values of [exn]. *)

From Stdlib Require Import ZArith Lia List.
From stdpp Require Import base tactics option list.

Open Scope Z_scope.

(** ** Python exceptions and results *)

Inductive exn : Type :=
| IndexError | ValueError | TypeError | StructError
| OSError | UnicodeEncodeError | RecursionError.

Inductive result (A : Type) : Type :=
| Ok (a : A)
| Raise (e : exn).
Arguments Ok {A} a.
Arguments Raise {A} e.

Definition rbind {A B} (r : result A) (k : A -> result B) : result B :=
  match r with
  | Ok a => k a
  | Raise e => Raise e
  end.

Declare Scope result_scope.
Delimit Scope result_scope with res.
Notation "x <- r ;; k" := (rbind r (fun x => k))
  (at level 100, r at next level, right associativity) : result_scope.

(** ** The file handle: contents and position *)

Record File : Type := mkFile { content : list Z; pos : Z }.

Definition M (A : Type) : Type := File -> result A * File.

Definition ret {A} (a : A) : M A := fun f => (Ok a, f).
Definition raise {A} (e : exn) : M A := fun f => (Raise e, f).
Definition lift {A} (r : result A) : M A := fun f => (r, f).
Definition bind {A B} (m : M A) (k : A -> M B) : M B :=
  fun f =>
    match m f with
    | (Ok a, f') => k a f'
    | (Raise e, f') => (Raise e, f')
    end.

Declare Scope file_scope.
Delimit Scope file_scope with file.
Notation "x <- m ;; k" := (bind m (fun x => k))
  (at level 100, m at next level, right associativity) : file_scope.
Notation "m ;;; k" := (bind m (fun _ => k))
  (at level 100, right associativity) : file_scope.

(** [file.seek(off)]: a negative offset is refused by the operating system. *)
Definition seek (off : Z) : M unit :=
  fun f => if off <? 0 then (Raise OSError, f) else (Ok tt, mkFile (content f) off).

(** [file.seek(0, os.SEEK_END)]. *)
Definition seek_end : M unit :=
  fun f => (Ok tt, mkFile (content f) (Z.of_nat (length (content f)))).

(** [file.tell()]. *)
Definition tell : M Z := fun f => (Ok (pos f), f).

(** [file.read(n)]: at most [n] bytes from the position, fewer at the end. *)
Definition read (n : nat) : M (list Z) :=
  fun f =>
    let data := take n (drop (Z.to_nat (pos f)) (content f)) in
    (Ok data, mkFile (content f) (pos f + Z.of_nat (length data))).

(** [file.write(buf)]: overwrites from the position and extends the file; a
    position past the end leaves a gap of zero bytes. *)
Definition write (buf : list Z) : M unit :=
  fun f =>
    let p := Z.to_nat (pos f) in
    let c := content f in
    (Ok tt,
     mkFile (take p c ++ replicate (p - length c) 0 ++ buf ++ drop (p + length buf) c)
            (pos f + Z.of_nat (length buf))).

(** [file.flush()]: the model has no volatile buffer. *)
Definition flush : M unit := ret tt.

(** ** Module constants *)

Definition NODE_SIZE : Z := 1024.
Definition MAX_VALUES : Z := 8.
Definition MAX_CHILDREN : Z := 64.

(** ** [bytes], [bytearray] and [struct] *)

Definition is_byte (b : Z) : bool := (0 <=? b) && (b <? 256).

(** [data[i]] on [bytes], for an index that is not negative. *)
Definition getitem (data : list Z) (i : nat) : result Z :=
  match data !! i with
  | Some b => Ok b
  | None => Raise IndexError
  end.

(** [data[a:b]]: slices clamp to the length. *)
Definition slice (data : list Z) (a b : nat) : list Z :=
  take (b - a) (drop a data).

(** [buf[i] = v] on a [bytearray], for an index that is not negative: [v]
    must be in [range(256)] and [i] below the length. Which exception comes
    first when both fail depends on the interpreter's version; the code
    never meets that case. *)
Definition setitem (buf : list Z) (i : nat) (v : Z) : result (list Z) :=
  if negb (is_byte v) then Raise ValueError
  else if (i <? length buf)%nat then Ok (<[i := v]> buf)
  else Raise IndexError.

(** The bytes of one ["<H"] and one ["<I"] field. *)
Definition pack_H (v : Z) : result (list Z) :=
  if (0 <=? v) && (v <? 65536) then Ok [v mod 256; v / 256]
  else Raise StructError.

Definition pack_I (v : Z) : result (list Z) :=
  if (0 <=? v) && (v <? 4294967296)
  then Ok [v mod 256; (v / 256) mod 256; (v / 65536) mod 256; v / 16777216]
  else Raise StructError.

Fixpoint pack_Is (vs : list Z) : result (list Z) :=
  match vs with
  | [] => Ok []
  | v :: vs' =>
      (bs <- pack_I v ;; rest <- pack_Is vs' ;; Ok (bs ++ rest))%res
  end.

(** Overwriting [buf] from [off] with [bs]. *)
Definition splice (buf : list Z) (off : nat) (bs : list Z) : list Z :=
  take off buf ++ bs ++ drop (off + length bs) buf.

(** [struct.pack_into(fmt, buf, off, ...)]: the buffer must hold the packed
    bytes from [off], and every value must fit its field. *)
Definition pack_into (buf : list Z) (off : nat) (packed : result (list Z))
  : result (list Z) :=
  (bs <- packed ;;
   if (off + length bs <=? length buf)%nat then Ok (splice buf off bs)
   else Raise StructError)%res.

(** [struct.unpack("<H", bs)[0]]: exactly two bytes. *)
Definition unpack_H (bs : list Z) : result Z :=
  match bs with
  | [b0; b1] => Ok (b0 + 256 * b1)
  | _ => Raise StructError
  end.

(** [struct.unpack("<" + "I" * n, bs)]: exactly [4 * n] bytes. *)
Fixpoint unpack_Is (n : nat) (bs : list Z) : result (list Z) :=
  match n, bs with
  | O, [] => Ok []
  | S n', b0 :: b1 :: b2 :: b3 :: bs' =>
      (vs <- unpack_Is n' bs' ;;
       Ok ((b0 + 256 * b1 + 65536 * b2 + 16777216 * b3) :: vs))%res
  | _, _ => Raise StructError
  end.

Fixpoint mapM {A B} (f : A -> result B) (l : list A) : result (list B) :=
  match l with
  | [] => Ok []
  | a :: l' => (b <- f a ;; bs <- mapM f l' ;; Ok (b :: bs))%res
  end.

(** ** Node records *)

(** The dictionary [_read_node] returns. *)
Record Node : Type := mkNode {
  char : list Z;
  is_terminal : bool;
  values : list Z;
  children : list (Z * Z)
}.

(** One turn of the loop of [_read_node] (lines 33-37). *)
Definition decode_child (data : list Z) (i : nat) : result (Z * Z) :=
  let offset := (36 + i * 3)%nat in
  (child_char <- getitem data offset ;;
   child_node <- unpack_H (slice data (offset + 1) (offset + 3)) ;;
   Ok (child_char, child_node))%res.

(** Lines 26-44 of [_read_node]: decoding the bytes that were read. *)
Definition decode_node (data : list Z) : result Node :=
  let char := slice data 0 1 in
  (b1 <- getitem data 1 ;;
   let is_terminal := negb (b1 =? 0) in
   num_values <- getitem data 2 ;;
   values <- unpack_Is (Z.to_nat num_values)
                       (slice data 3 (3 + 4 * Z.to_nat num_values)) ;;
   num_children <- getitem data 35 ;;
   children <- mapM (decode_child data) (seq 0 (Z.to_nat num_children)) ;;
   Ok (mkNode char is_terminal values children))%res.

Definition _read_node (node_id : Z) : M (option Node) :=
  (seek (node_id * NODE_SIZE) ;;;
   data <- read (Z.to_nat NODE_SIZE) ;;
   match data with
   | [] => ret None
   | _ => node <- lift (decode_node data) ;; ret (Some node)
   end)%file.

(** One turn of the loop of [_write_node] (lines 53-56). *)
Definition encode_child (buf : list Z) (i : nat) (e : Z * Z) : result (list Z) :=
  let offset := (36 + i * 3)%nat in
  (buf <- setitem buf offset (fst e) ;;
   pack_into buf (offset + 1) (pack_H (snd e)))%res.

Fixpoint encode_children (buf : list Z) (i : nat) (children : list (Z * Z))
  : result (list Z) :=
  match children with
  | [] => Ok buf
  | e :: rest =>
      (buf <- encode_child buf i e ;; encode_children buf (S i) rest)%res
  end.

(** Lines 47-56 of [_write_node]: filling the buffer. [buf[0:1] = char] is a
    slice assignment, it replaces the first byte by all of [char]. *)
Definition encode_node (char : list Z) (is_terminal : bool) (values : list Z)
    (children : list (Z * Z)) : result (list Z) :=
  let buf := replicate (Z.to_nat NODE_SIZE) 0 in
  let buf := char ++ drop 1 buf in
  (buf <- setitem buf 1 (if is_terminal then 1 else 0) ;;
   buf <- setitem buf 2 (Z.of_nat (length values)) ;;
   buf <- pack_into buf 3 (pack_Is values) ;;
   buf <- setitem buf 35 (Z.of_nat (length children)) ;;
   encode_children buf 0 children)%res.

Definition _write_node (node_id : Z) (char : list Z) (is_terminal : bool)
    (values : list Z) (children : list (Z * Z)) : M unit :=
  (buf <- lift (encode_node char is_terminal values children) ;;
   seek (node_id * NODE_SIZE) ;;;
   write buf ;;;
   flush)%file.

Definition _get_next_node_id : M Z :=
  (seek_end ;;;
   size <- tell ;;
   ret (size / NODE_SIZE))%file.

(** The [for c, node_idx in node["children"]] search: the first entry whose
    byte is [target]. *)
Fixpoint find_child (children : list (Z * Z)) (target : Z) : option Z :=
  match children with
  | [] => None
  | (c, node_idx) :: rest =>
      if c =? target then Some node_idx else find_child rest target
  end.

(** Subscripting [None] raises [TypeError]. *)
Definition subscript {A} (r : option Node) (k : Node -> M A) : M A :=
  match r with
  | None => raise TypeError
  | Some node => k node
  end.

Definition _find_or_create_child (parent_id target_char : Z) : M Z :=
  (r <- _read_node parent_id ;;
   subscript r (fun node =>
     match find_child (children node) target_char with
     | Some node_idx => ret node_idx
     | None =>
         new_node_id <- _get_next_node_id ;;
         let children' := children node ++ [(target_char, new_node_id)] in
         _write_node parent_id (char node) (is_terminal node) (values node) children' ;;;
         _write_node new_node_id [target_char] false [] [] ;;;
         ret new_node_id
     end))%file.

(** ** [str] and [str.encode("utf-8")] *)

(** A Python [str] is its sequence of code points, each in
    [range(0x110000)]. *)
Definition str : Type := list Z.

(** The UTF-8 bytes of one code point. Surrogates cannot be encoded; a
    number that is no code point cannot be part of a [str] at all ([chr]
    raises [ValueError] for it), which the first test records. *)
Definition utf8_char (cp : Z) : result (list Z) :=
  if (cp <? 0) || (0x10FFFF <? cp) then Raise ValueError
  else if cp <? 0x80 then Ok [cp]
  else if cp <? 0x800 then
    Ok [Z.lor 0xC0 (Z.shiftr cp 6); Z.lor 0x80 (Z.land cp 0x3F)]
  else if cp <? 0x10000 then
    if (0xD800 <=? cp) && (cp <=? 0xDFFF) then Raise UnicodeEncodeError
    else Ok [Z.lor 0xE0 (Z.shiftr cp 12);
             Z.lor 0x80 (Z.land (Z.shiftr cp 6) 0x3F);
             Z.lor 0x80 (Z.land cp 0x3F)]
  else
    Ok [Z.lor 0xF0 (Z.shiftr cp 18);
        Z.lor 0x80 (Z.land (Z.shiftr cp 12) 0x3F);
        Z.lor 0x80 (Z.land (Z.shiftr cp 6) 0x3F);
        Z.lor 0x80 (Z.land cp 0x3F)].

Fixpoint encode_utf8 (s : str) : result (list Z) :=
  match s with
  | [] => Ok []
  | cp :: s' =>
      (bs <- utf8_char cp ;; rest <- encode_utf8 s' ;; Ok (bs ++ rest))%res
  end.

(** ** The trie engine *)

(** The loop of [insert] (lines 83-84). *)
Fixpoint insert_loop (word : list Z) (node_id : Z) : M Z :=
  match word with
  | [] => ret node_id
  | ch :: rest =>
      (node_id <- _find_or_create_child node_id ch ;; insert_loop rest node_id)%file
  end.

(** Lines 88-90 of [insert]. *)
Definition add_value (vs : list Z) (value : Z) : list Z :=
  if existsb (Z.eqb value) vs then vs
  else if Z.of_nat (length vs) <? MAX_VALUES then vs ++ [value]
  else vs.

Definition insert (word : str) (value : Z) : M unit :=
  (word <- lift (encode_utf8 word) ;;
   node_id <- insert_loop word 0 ;;
   r <- _read_node node_id ;;
   subscript r (fun node =>
     _write_node node_id (char node) true (add_value (values node) value)
                 (children node)))%file.

(** The descent shared by [lookup] (lines 97-104) and [prefix_search] (lines
    139-146); [None] is the [else] branch of the inner [for], where both
    return the empty list. *)
Fixpoint descend (word : list Z) (node_id : Z) : M (option Z) :=
  match word with
  | [] => ret (Some node_id)
  | ch :: rest =>
      (r <- _read_node node_id ;;
       subscript r (fun node =>
         match find_child (children node) ch with
         | Some child_id => descend rest child_id
         | None => ret None
         end))%file
  end.

Definition lookup (word : str) : M (list Z) :=
  (word <- lift (encode_utf8 word) ;;
   r <- descend word 0 ;;
   match r with
   | None => ret []
   | Some node_id =>
       r <- _read_node node_id ;;
       subscript r (fun node =>
         ret (if is_terminal node then values node else []))
   end)%file.

(** [PersistentTrie.__init__] on an opened file: an empty file gets its root. *)
Definition __init__ : M unit :=
  fun f =>
    if (length (content f) =? 0)%nat then _write_node 0 [0] false [] [] f
    else ret tt f.

Fixpoint foldM {A B} (f : B -> A -> M B) (l : list A) (b : B) : M B :=
  match l with
  | [] => ret b
  | a :: l' => (b <- f b a ;; foldM f l' b)%file
  end.

(** [dfs] of [prefix_search]. [depth] is the number of frames the
    interpreter still allows; [results] is the enclosing list it appends to.
    A path element is a one-character [str]; [chr(c)] is the code point [c]. *)
Fixpoint dfs (depth : nat) (current_id : Z) (path : list str)
    (results : list (str * list Z)) : M (list (str * list Z)) :=
  match depth with
  | O => raise RecursionError
  | S depth' =>
      (r <- _read_node current_id ;;
       subscript r (fun node =>
         let results :=
           if is_terminal node then results ++ [(concat path, values node)]
           else results in
         foldM (fun results e => dfs depth' (snd e) (path ++ [[fst e]]) results)
               (children node) results))%file
  end.

Definition prefix_search (depth : nat) (prefix : str) : M (list (str * list Z)) :=
  (prefix_bytes <- lift (encode_utf8 prefix) ;;
   r <- descend prefix_bytes 0 ;;
   match r with
   | None => ret []
   | Some node_id => dfs depth node_id (map (fun ch => [ch]) prefix) []
   end)%file.

(** ** The end-to-end scenario *)

Definition empty_file : File := mkFile [] 0.

(** "cat", "car", "dog", "ca", "do" *)
Definition s_cat : str := [99; 97; 116].
Definition s_car : str := [99; 97; 114].
Definition s_dog : str := [100; 111; 103].
Definition s_ca : str := [99; 97].
Definition s_do : str := [100; 111].

Definition scenario : File :=
  snd ((__init__ ;;; insert s_cat 1 ;;; insert s_car 2 ;;; insert s_dog 3)%file
         empty_file).

(** ** The record layout, as a closed form *)

Definition u32 (v : Z) : Prop := 0 <= v < 4294967296.
Definition u16 (v : Z) : Prop := 0 <= v < 65536.
Definition byte (v : Z) : Prop := 0 <= v < 256.

Definition value_bytes (v : Z) : list Z :=
  [v mod 256; (v / 256) mod 256; (v / 65536) mod 256; v / 16777216].

Definition child_bytes (e : Z * Z) : list Z :=
  [fst e; snd e mod 256; snd e / 256].

Definition child_ok (e : Z * Z) : Prop := byte (fst e) /\ u16 (snd e).

(** A prefix followed by zero bytes: every stage of the buffer of
    [_write_node] has this form. *)
Definition zeros_after (pre : list Z) (m : nat) : list Z := pre ++ replicate m 0.

(** Bytes 0 to 35 of a record with [k] children. *)
Definition header (ch : list Z) (t : bool) (vs : list Z) (k : nat) : list Z :=
  ch ++ [if t then 1 else 0; Z.of_nat (length vs)]
     ++ concat (map value_bytes vs) ++ replicate (32 - 4 * length vs) 0
     ++ [Z.of_nat k].

(** The record of section 4.1: offsets 0, 1, 2, 3, 35 and 36. *)
Definition layout (ch : list Z) (t : bool) (vs : list Z) (cs : list (Z * Z))
  : list Z :=
  ch ++ [if t then 1 else 0; Z.of_nat (length vs)]
     ++ concat (map value_bytes vs) ++ replicate (32 - 4 * length vs) 0
     ++ [Z.of_nat (length cs)]
     ++ concat (map child_bytes cs) ++ replicate (988 - 3 * length cs) 0.

(** What [_write_node] can store without an exception and [_read_node]
    reads back unchanged. *)
Definition encodable (ch : list Z) (vs : list Z) (cs : list (Z * Z)) : Prop :=
  length ch = 1%nat /\ (length vs <= 8)%nat /\ Forall u32 vs /\
  (length cs <= 255)%nat /\ Forall child_ok cs.

(** ** The store as a function of the file contents *)

(** Number of complete records, the value [_get_next_node_id] returns. *)
Definition nodes (c : list Z) : Z := Z.of_nat (length c) / NODE_SIZE.

Definition offset_of (id : Z) : nat := Z.to_nat (id * NODE_SIZE).

(** The bytes [_read_node] reads for [id]. *)
Definition record (c : list Z) (id : Z) : list Z :=
  take (Z.to_nat NODE_SIZE) (drop (offset_of id) c).

(** The outcome of [_read_node] on contents [c]. *)
Definition read_pure (c : list Z) (id : Z) : result (option Node) :=
  if id <? 0 then Raise OSError
  else match record c id with
       | [] => Ok None
       | data => (node <- decode_node data ;; Ok (Some node))%res
       end.

(** The node stored under [id], when [_read_node] returns one. *)
Definition node_at (c : list Z) (id : Z) : option Node :=
  match read_pure c id with
  | Ok (Some nd) => Some nd
  | _ => None
  end.

(** The contents after [write(buf)] at the offset of [id]. *)
Definition put (c : list Z) (id : Z) (buf : list Z) : list Z :=
  take (offset_of id) c ++ replicate (offset_of id - length c) 0
    ++ buf ++ drop (offset_of id + length buf) c.

(** Bytes that occur in UTF-8 text: none is [0xF5] or above. *)
Definition utf8_byte (b : Z) : Prop := 0 <= b < 245.

Definition utf8_byteb (b : Z) : bool := (0 <=? b) && (b <? 245).

(** The invariant of a node record: [n] is the number of nodes of the store
    and [id] the node's own identifier. *)
Definition wf_node (n id : Z) (nd : Node) : Prop :=
  length (char nd) = 1%nat /\
  (length (values nd) <= 8)%nat /\
  Forall u32 (values nd) /\
  NoDup (values nd) /\
  (is_terminal nd = false -> values nd = []) /\
  NoDup (map fst (children nd)) /\
  Forall (fun e => utf8_byte (fst e) /\ id < snd e < n) (children nd).

(** The invariant of the backing file. *)
Definition wf_store (c : list Z) : Prop :=
  Z.of_nat (length c) = NODE_SIZE * nodes c /\
  1 <= nodes c <= 65536 /\
  forall id, 0 <= id < nodes c ->
    exists nd, node_at c id = Some nd /\ wf_node (nodes c) id nd.

(** Following the child tables from [id] along the bytes [bs]. *)
Fixpoint walk (c : list Z) (id : Z) (bs : list Z) : option Z :=
  match bs with
  | [] => Some id
  | b :: bs' =>
      match node_at c id with
      | Some nd =>
          match find_child (children nd) b with
          | Some m => walk c m bs'
          | None => None
          end
      | None => None
      end
  end.

(** The contents after [_write_node] stored [nd] under [id]. *)
Definition store_node (c : list Z) (id : Z) (nd : Node) : list Z :=
  put c id (layout (char nd) (is_terminal nd) (values nd) (children nd)).

(** The record [_find_or_create_child] writes for a new child. *)
Definition fresh_node (b : Z) : Node := mkNode [b] false [] [].

(** The parent record after the new edge was appended. *)
Definition with_child (nd : Node) (b id : Z) : Node :=
  mkNode (char nd) (is_terminal nd) (values nd) (children nd ++ [(b, id)]).

(** The contents after [_find_or_create_child] created the child [b] of
    [pid]: the parent is rewritten first, the child appended after. *)
Definition add_child (c : list Z) (pid b : Z) (nd : Node) : list Z :=
  store_node (store_node c pid (with_child nd b (nodes c)))
             (nodes c) (fresh_node b).

(** [c'] keeps every node of [c], with the same flag and values and at
    least the same edges. *)
Definition extends (c c' : list Z) : Prop :=
  forall j nd, node_at c j = Some nd ->
    exists nd', node_at c' j = Some nd' /\
      is_terminal nd' = is_terminal nd /\ values nd' = values nd /\
      forall b m, find_child (children nd) b = Some m ->
                  find_child (children nd') b = Some m.

(** [c'] keeps every node of [c] with at least the same edges. *)
Definition edges_kept (c c' : list Z) : Prop :=
  forall j nd, node_at c j = Some nd ->
    exists nd', node_at c' j = Some nd' /\
      forall b m, find_child (children nd) b = Some m ->
                  find_child (children nd') b = Some m.

(** How many nodes [insert] has to create below [id] for the bytes [bs]. *)
Fixpoint new_nodes (c : list Z) (id : Z) (bs : list Z) : Z :=
  match bs with
  | [] => 0
  | b :: bs' =>
      match node_at c id with
      | Some nd =>
          match find_child (children nd) b with
          | Some m => new_nodes c m bs'
          | None => Z.of_nat (length bs)
          end
      | None => 0
      end
  end.

(** What [lookup] reports for the encoded key [bs] on contents [c]. *)
Definition stored (c : list Z) (bs : list Z) : list Z :=
  match walk c 0 bs with
  | Some n =>
      match node_at c n with
      | Some nd => if is_terminal nd then values nd else []
      | None => []
      end
  | None => []
  end.

(** A method that leaves every byte of the file as it was; the position
    of the handle is free to move. *)
Definition read_only {A} (m : M A) : Prop :=
  forall f, content (snd (m f)) = content f.

(** A full record whose two count bytes are [nv] and [nc], zero elsewhere. *)
Definition record_with_counts (nv nc : Z) : list Z :=
  [0; 0; nv] ++ replicate 32 0 ++ [nc] ++ replicate 988 0.




(** The store right after [PersistentTrie.__init__] created the file. *)
Definition store0 : File := snd (__init__ empty_file).

(** A caller inserting one value under several keys, one call each. *)
Fixpoint insert_keys (words : list str) (value : Z) : M unit :=
  match words with
  | [] => ret tt
  | w :: words' => (insert w value ;;; insert_keys words' value)%file
  end.

(** The 65 one-character keys "0", "1", ..., "p" (code points 48 to 112). *)
Definition sixty_five_keys : list str :=
  map (fun k => [Z.of_nat k]) (seq 48 65).

(** A fresh store after these 65 keys were inserted with the value 1. *)
Definition crowded : File :=
  snd ((__init__ ;;; insert_keys sixty_five_keys 1)%file empty_file).

(** The root record of [crowded]: the byte [47 + k] leads to node [k]. *)
Definition crowded_root : Node :=
  mkNode [0] false [] (map (fun k => (Z.of_nat (47 + k), Z.of_nat k)) (seq 1 65)).

(** "é", U+00E9: two bytes in UTF-8. *)
Definition s_e_acute : str := [233].

(** A fresh store after [insert("é", 1)]. *)
Definition accented : File :=
  snd ((__init__ ;;; insert s_e_acute 1)%file empty_file).

(** A key of 65536 letters "a". *)
Definition long_key : str := replicate (Z.to_nat 65536) 97.

(** What a returning [dfs] has collected: all it was given, and an entry
    for every terminal node below [id], keyed by the path followed by the
    bytes that lead to the node, each taken as one character. *)
Definition dfs_collects (d : nat) : Prop :=
  forall id path acc f res f',
    dfs d id path acc f = (Ok res, f') ->
    (forall x, x ∈ acc -> x ∈ res) /\
    (forall s m nd,
       walk (content f) id s = Some m ->
       node_at (content f) m = Some nd -> is_terminal nd = true ->
       (concat path ++ s, values nd) ∈ res).

(** Code points below 128: the characters UTF-8 stores in one byte. *)
Definition ascii (cp : Z) : Prop := 0 <= cp < 128.

(** The stores a program can reach through the public interface. *)
Inductive reachable : File -> Prop :=
| reachable_new : reachable store0
| reachable_insert f w v : reachable f -> reachable (snd (insert w v f))
| reachable_lookup f w : reachable f -> reachable (snd (lookup w f))
| reachable_prefix_search f d w :
    reachable f -> reachable (snd (prefix_search d w f)).

(** ** The shape of the node graph *)

(** At most one edge leads to a node. *)
Definition unique_parent (c : list Z) : Prop :=
  forall j1 j2 nd1 nd2 b1 b2 m,
    node_at c j1 = Some nd1 -> node_at c j2 = Some nd2 ->
    (b1, m) ∈ children nd1 -> (b2, m) ∈ children nd2 ->
    j1 = j2 /\ b1 = b2.

(** The invariant together with the tree shape. *)
Definition tree_store (c : list Z) : Prop := wf_store c /\ unique_parent c.

(** What the loop of [insert] does to a store: the old nodes keep their
    flag, values and edges; the nodes it appends are not terminal and hold
    no value; and no new edge leads to an old node. *)
Definition grown (c c' : list Z) : Prop :=
  extends c c' /\
  (forall j nd, nodes c <= j -> node_at c' j = Some nd ->
     is_terminal nd = false /\ values nd = []) /\
  (forall j nd' b m,
     node_at c' j = Some nd' -> (b, m) ∈ children nd' -> m < nodes c ->
     exists nd, node_at c j = Some nd /\ (b, m) ∈ children nd).

(** ** Callers *)

(** A caller inserting a list of (key, value) pairs, one call each:
    [for w, v in h: trie.insert(w, v)]. *)
Fixpoint insert_seq (h : list (str * Z)) : M unit :=
  match h with
  | [] => ret tt
  | (w, v) :: h' => (insert w v ;;; insert_seq h')%file
  end.

(** Whether the key [w] has the UTF-8 bytes [bs]. *)
Definition encodes_to (bs : list Z) (w : str) : bool :=
  match encode_utf8 w with
  | Ok b => bool_decide (b = bs)
  | Raise _ => false
  end.

(** The values a history of inserts gave to the key with bytes [bs], in
    the order of the calls. *)
Definition values_under (bs : list Z) (h : list (str * Z)) : list Z :=
  map snd (filter (fun e => encodes_to bs (fst e) = true) h).

(** What a returning [dfs] can hold: what it was given, and entries of
    terminal nodes below [id], keyed by the path followed by the bytes that
    lead to the node. *)
Definition dfs_sound (d : nat) : Prop :=
  forall id path acc f res f',
    wf_store (content f) -> 0 <= id < nodes (content f) ->
    dfs d id path acc f = (Ok res, f') ->
    forall x, x ∈ res ->
      x ∈ acc \/
      exists s m nd,
        x = (concat path ++ s, values nd) /\
        walk (content f) id s = Some m /\
        node_at (content f) m = Some nd /\ is_terminal nd = true.

(** ** [bulk_insert] *)

(** [s.split(sep)] for a separator of one character: the pieces between
    the separators, an empty string giving one empty piece. *)
Fixpoint split (sep : Z) (s : str) : list str :=
  match s with
  | [] => [[]]
  | c :: s' =>
      if c =? sep then [] :: split sep s'
      else match split sep s' with
           | p :: ps => (c :: p) :: ps
           | [] => [[c]]
           end
  end.

(** [word, value = parts]: exactly two pieces, or [ValueError]. *)
Definition unpack2 (parts : list str) : result (str * str) :=
  match parts with
  | [word; value] => Ok (word, value)
  | _ => Raise ValueError
  end.

Section BulkInsert.
(** [str.strip] and [int] of the Python library: a function on strings,
    and a function that returns an integer or raises. *)
Variable strip : str -> str.
Variable py_int : str -> result Z.

(** [word, value = line.strip().split(','); int(value)]. *)
Definition parse_line (line : str) : result (str * Z) :=
  (wv <- unpack2 (split 44 (strip line)) ;;
   v <- py_int (snd wv) ;;
   Ok (fst wv, v))%res.

(** The body of the [try]. *)
Definition insert_line (line : str) : M unit :=
  (wv <- lift (parse_line line) ;; insert (fst wv) (snd wv))%file.

(** [bulk_insert] on the lines of the opened file: every exception of a
    line is caught and printed with the stripped line, and the loop goes
    on. The result is what was printed and the file. *)
Fixpoint bulk_insert (lines : list str) (f : File)
    : list (str * exn) * File :=
  match lines with
  | [] => ([], f)
  | line :: rest =>
      match insert_line line f with
      | (Ok _, f1) => bulk_insert rest f1
      | (Raise e, f1) =>
          let r := bulk_insert rest f1 in ((strip line, e) :: fst r, snd r)
      end
  end.

(** The (word, value) pairs of the lines that parse. *)
Fixpoint parsed (lines : list str) : list (str * Z) :=
  match lines with
  | [] => []
  | line :: rest =>
      match parse_line line with
      | Ok wv => wv :: parsed rest
      | Raise _ => parsed rest
      end
  end.
End BulkInsert.

(** Instances for the examples, on lines of ASCII text: [strip] removing
    the white space of ASCII at both ends, [int] reading decimal digits. *)
Definition is_space (c : Z) : bool :=
  ((9 <=? c) && (c <=? 13)) || ((28 <=? c) && (c <=? 32)).

Fixpoint lstrip (s : str) : str :=
  match s with
  | c :: s' => if is_space c then lstrip s' else s
  | [] => []
  end.

Definition ascii_strip (s : str) : str := rev (lstrip (rev (lstrip s))).

Fixpoint digits (acc : Z) (s : str) : result Z :=
  match s with
  | [] => Ok acc
  | c :: s' =>
      if (48 <=? c) && (c <=? 57) then digits (10 * acc + (c - 48)) s'
      else Raise ValueError
  end.

Definition decimal (s : str) : result Z :=
  match s with
  | [] => Raise ValueError
  | _ => digits 0 s
  end.

(** [cat,1\n], [no comma\n], [car,x\n], [cat,7\n]. *)
Definition sample_lines : list str :=
  [ [99; 97; 116; 44; 49; 10];
    [110; 111; 32; 99; 111; 109; 109; 97; 10];
    [99; 97; 114; 44; 120; 10];
    [99; 97; 116; 44; 55; 10] ].

(* ================================================================== *)
(** * Theorems *)

(** ** The record codec *)

Ltac app_eq :=
  rewrite <- ?app_assoc; cbn [app child_bytes fst snd];
  repeat match goal with
    | |- _ ++ _ = _ ++ _ => apply (f_equal2 (@app _))
    | |- _ :: _ = _ :: _ => apply (f_equal2 cons)
    | |- replicate ?n ?x = replicate ?m ?x =>
        apply (f_equal (fun k => replicate k x)); lia
    | |- _ => reflexivity
    end.

Lemma splice_zeros (pre bs : list Z) (m off : nat) :
  (length pre <= off)%nat ->
  (off + length bs <= length pre + m)%nat ->
  splice (pre ++ replicate m 0) off bs =
  pre ++ replicate (off - length pre) 0 ++ bs
      ++ replicate (length pre + m - off - length bs) 0.
Proof.
  intros Hle Hfit. unfold splice.
  rewrite take_app_ge by lia.
  rewrite drop_app_ge by lia.
  rewrite take_replicate, drop_replicate.
  app_eq.
Qed.

Lemma setitem_zeros (pre : list Z) (m off : nat) (v : Z) :
  is_byte v = true ->
  (length pre <= off)%nat ->
  (off < length pre + m)%nat ->
  setitem (pre ++ replicate m 0) off v =
  Ok (pre ++ replicate (off - length pre) 0 ++ [v]
          ++ replicate (length pre + m - off - 1) 0).
Proof.
  intros Hv Hle Hlt. unfold setitem. rewrite Hv. simpl.
  rewrite length_app, length_replicate.
  destruct (Nat.ltb_spec off (length pre + m)) as [_|]; [|lia].
  f_equal.
  rewrite insert_app_r_alt by lia.
  f_equal.
  replace m with ((off - length pre) + S (length pre + m - off - 1))%nat at 1 by lia.
  rewrite replicate_add. simpl.
  rewrite insert_app_r_alt by (rewrite length_replicate; lia).
  rewrite length_replicate, Nat.sub_diag. reflexivity.
Qed.

Lemma setitem_zeros_after (pre : list Z) (m off : nat) (v : Z) :
  is_byte v = true ->
  (length pre <= off)%nat ->
  (off < length pre + m)%nat ->
  setitem (zeros_after pre m) off v =
  Ok (zeros_after (pre ++ replicate (off - length pre) 0 ++ [v])
                  (length pre + m - off - 1)).
Proof.
  intros. unfold zeros_after. rewrite setitem_zeros by assumption.
  f_equal. app_eq.
Qed.

Lemma pack_into_zeros_after (pre bs : list Z) (m off : nat) :
  (length pre <= off)%nat ->
  (off + length bs <= length pre + m)%nat ->
  pack_into (zeros_after pre m) off (Ok bs) =
  Ok (zeros_after (pre ++ replicate (off - length pre) 0 ++ bs)
                  (length pre + m - off - length bs)).
Proof.
  intros. unfold zeros_after, pack_into. simpl.
  rewrite length_app, length_replicate.
  destruct (Nat.leb_spec (off + length bs) (length pre + m)); [|lia].
  rewrite splice_zeros by assumption. f_equal. app_eq.
Qed.

Lemma is_byte_true (v : Z) : byte v -> is_byte v = true.
Proof. unfold byte, is_byte. intros. apply andb_true_iff. lia. Qed.

Lemma pack_H_ok (v : Z) : u16 v -> pack_H v = Ok [v mod 256; v / 256].
Proof.
  unfold u16, pack_H. intros.
  replace ((0 <=? v) && (v <? 65536)) with true; [reflexivity|].
  symmetry. apply andb_true_iff. lia.
Qed.

Lemma pack_I_ok (v : Z) : u32 v -> pack_I v = Ok (value_bytes v).
Proof.
  unfold u32, pack_I. intros.
  replace ((0 <=? v) && (v <? 4294967296)) with true; [reflexivity|].
  symmetry. apply andb_true_iff. lia.
Qed.

Lemma pack_Is_ok (vs : list Z) :
  Forall u32 vs -> pack_Is vs = Ok (concat (map value_bytes vs)).
Proof.
  induction 1 as [|v vs Hv _ IH]; simpl; [reflexivity|].
  rewrite pack_I_ok by assumption. simpl. rewrite IH. reflexivity.
Qed.

Lemma length_value_bytes (vs : list Z) :
  length (concat (map value_bytes vs)) = (4 * length vs)%nat.
Proof. induction vs; simpl in *; lia. Qed.

Lemma length_child_bytes (cs : list (Z * Z)) :
  length (concat (map child_bytes cs)) = (3 * length cs)%nat.
Proof. induction cs; simpl in *; lia. Qed.

Lemma encode_children_zeros_after (cs : list (Z * Z)) :
  forall (pre : list Z) (m i : nat),
    length pre = (36 + i * 3)%nat ->
    (3 * length cs <= m)%nat ->
    Forall child_ok cs ->
    encode_children (zeros_after pre m) i cs =
    Ok (zeros_after (pre ++ concat (map child_bytes cs)) (m - 3 * length cs)).
Proof.
  induction cs as [|[c idx] cs IH]; intros pre m i Hpre Hm Hok.
  - simpl. rewrite app_nil_r, Nat.sub_0_r. reflexivity.
  - apply Forall_cons in Hok as [[Hc Hidx] Hok]. simpl in Hc, Hidx.
    cbn [length] in Hm.
    cbn [encode_children]. unfold encode_child. cbn [fst snd].
    rewrite setitem_zeros_after by (auto using is_byte_true; lia).
    cbn [rbind]. rewrite pack_H_ok by assumption.
    rewrite pack_into_zeros_after
      by (rewrite ?length_app, ?length_replicate; simpl; lia).
    cbn [rbind].
    rewrite IH; [| rewrite ?length_app, ?length_replicate; simpl; lia
                 | rewrite ?length_app, ?length_replicate; simpl; lia
                 | assumption ].
    f_equal. unfold zeros_after.
    rewrite !length_app, !length_replicate. cbn [length].
    replace (36 + i * 3 - length pre)%nat with 0%nat by lia.
    replace (36 + i * 3 + 1 - (length pre + (0 + 1)))%nat with 0%nat by lia.
    cbn [replicate map concat child_bytes fst snd].
    app_eq.
Qed.

Lemma node_size_nat : Z.to_nat NODE_SIZE = 1024%nat.
Proof. reflexivity. Qed.

Ltac len :=
  rewrite ?length_app, ?length_replicate, ?length_value_bytes,
    ?length_child_bytes;
  cbn [length]; lia.

(** Lines 47-52 of [_write_node]: the buffer before the loop over the
    children. *)
Lemma encode_node_header (ch : list Z) (t : bool) (vs : list Z)
    (cs : list (Z * Z)) :
  length ch = 1%nat -> (length vs <= 8)%nat -> Forall u32 vs ->
  (length cs <= 255)%nat ->
  encode_node ch t vs cs =
  encode_children (zeros_after (header ch t vs (length cs)) 988) 0 cs.
Proof.
  intros Hch Hvs Hu32 Hcs.
  unfold encode_node. rewrite node_size_nat, drop_replicate.
  change (ch ++ replicate (1024 - 1) 0) with (zeros_after ch (1024 - 1)).
  rewrite setitem_zeros_after by (try (destruct t; reflexivity); len).
  cbn [rbind].
  rewrite setitem_zeros_after
    by (try (apply is_byte_true; unfold byte; lia); len).
  cbn [rbind]. rewrite pack_Is_ok by assumption.
  rewrite pack_into_zeros_after by len.
  cbn [rbind].
  rewrite setitem_zeros_after
    by (try (apply is_byte_true; unfold byte; lia); len).
  cbn [rbind].
  f_equal. unfold zeros_after, header.
  rewrite !length_app, !length_replicate, !length_value_bytes. cbn [length].
  rewrite Hch.
  replace (1 - 1)%nat with 0%nat by lia.
  replace (2 - (1 + (0 + 1)))%nat with 0%nat by lia.
  replace (3 - (1 + (0 + 1) + (0 + 1)))%nat with 0%nat by lia.
  change (replicate 0 0) with (@nil Z).
  app_eq.
Qed.

Lemma length_header (ch : list Z) (t : bool) (vs : list Z) (k : nat) :
  length ch = 1%nat -> (length vs <= 8)%nat ->
  length (header ch t vs k) = 36%nat.
Proof. intros. unfold header. len. Qed.

(** The buffer [_write_node] builds is the record of section 4.1. *)
Lemma encode_node_layout (ch : list Z) (t : bool) (vs : list Z)
    (cs : list (Z * Z)) :
  encodable ch vs cs -> encode_node ch t vs cs = Ok (layout ch t vs cs).
Proof.
  intros (Hch & Hvs & Hu32 & Hcs & Hok).
  rewrite encode_node_header by assumption.
  rewrite encode_children_zeros_after
    by (try assumption; try lia; apply length_header; assumption).
  f_equal. unfold zeros_after, header, layout. app_eq.
Qed.

(** A child identifier that does not fit 16 bits stops [_write_node]: the
    ["<H"] field refuses it. *)
Lemma encode_children_overflow (cs : list (Z * Z)) (b idx : Z) :
  forall (pre : list Z) (m i : nat),
    length pre = (36 + i * 3)%nat ->
    (3 * length cs + 3 <= m)%nat ->
    Forall child_ok cs -> byte b -> ~ u16 idx ->
    encode_children (zeros_after pre m) i (cs ++ [(b, idx)]) = Raise StructError.
Proof.
  induction cs as [|[c idx'] cs IH]; intros pre m i Hpre Hm Hok Hb Hidx.
  - cbn [app encode_children]. unfold encode_child. cbn [fst snd].
    rewrite setitem_zeros_after by (auto using is_byte_true; cbn in Hm; lia).
    cbn [rbind]. unfold pack_into, pack_H.
    replace ((0 <=? idx) && (idx <? 65536)) with false; [reflexivity|].
    symmetry. apply andb_false_iff. unfold u16 in Hidx. lia.
  - apply Forall_cons in Hok as [[Hc Hidx'] Hok]. simpl in Hc, Hidx'.
    cbn [length] in Hm.
    cbn [app encode_children]. unfold encode_child at 1. cbn [fst snd].
    rewrite setitem_zeros_after by (auto using is_byte_true; lia).
    cbn [rbind]. rewrite pack_H_ok by assumption.
    rewrite pack_into_zeros_after
      by (rewrite ?length_app, ?length_replicate; simpl; lia).
    cbn [rbind].
    apply IH; try assumption;
      rewrite ?length_app, ?length_replicate; simpl; lia.
Qed.

Lemma encode_node_overflow (ch : list Z) (t : bool) (vs : list Z)
    (cs : list (Z * Z)) (b idx : Z) :
  encodable ch vs cs -> (length cs < 255)%nat -> byte b -> ~ u16 idx ->
  encode_node ch t vs (cs ++ [(b, idx)]) = Raise StructError.
Proof.
  intros (Hch & Hvs & Hu32 & Hcs & Hok) Hlt Hb Hidx.
  rewrite encode_node_header
    by (try assumption; rewrite length_app; cbn [length]; lia).
  apply encode_children_overflow; try assumption; try lia.
  apply length_header; assumption.
Qed.

Lemma getitem_middle (data pre post : list Z) (x : Z) (i : nat) :
  data = pre ++ x :: post -> i = length pre -> getitem data i = Ok x.
Proof.
  intros -> ->. unfold getitem.
  rewrite list_lookup_middle by reflexivity. reflexivity.
Qed.

Lemma slice_middle (data pre mid post : list Z) (a b : nat) :
  data = pre ++ mid ++ post -> a = length pre -> (b = a + length mid)%nat ->
  slice data a b = mid.
Proof.
  intros -> -> ->. unfold slice.
  rewrite drop_app_length.
  replace (length pre + length mid - length pre)%nat with (length mid) by lia.
  apply take_app_length.
Qed.

Lemma value_bytes_sum (v : Z) :
  u32 v ->
  v mod 256 + 256 * ((v / 256) mod 256) + 65536 * ((v / 65536) mod 256)
    + 16777216 * (v / 16777216) = v.
Proof.
  intros _.
  change 65536 with (256 * 256). change 16777216 with (256 * 256 * 256).
  rewrite <- !Z.div_div by lia.
  rewrite !Z.mod_eq by lia. lia.
Qed.

Lemma unpack_Is_value_bytes (vs : list Z) :
  Forall u32 vs ->
  unpack_Is (length vs) (concat (map value_bytes vs)) = Ok vs.
Proof.
  induction 1 as [|v vs Hv _ IH]; [reflexivity|].
  cbn [length map concat value_bytes app unpack_Is].
  rewrite IH. cbn [rbind]. rewrite value_bytes_sum by assumption. reflexivity.
Qed.

Lemma decode_child_middle (data pre post : list Z) (e : Z * Z) (i : nat) :
  data = pre ++ child_bytes e ++ post ->
  length pre = (36 + i * 3)%nat ->
  child_ok e ->
  decode_child data i = Ok e.
Proof.
  intros Hdata Hpre [_ Hidx]. destruct e as [c idx]. simpl in Hidx.
  unfold decode_child, child_bytes in *. cbn [fst snd] in *.
  rewrite (getitem_middle data pre ([idx mod 256; idx / 256] ++ post) c)
    by (try assumption; lia).
  cbn [rbind].
  rewrite (slice_middle data (pre ++ [c]) [idx mod 256; idx / 256] post)
    by (try (rewrite Hdata; app_eq); len).
  cbn [unpack_H rbind].
  replace (idx mod 256 + 256 * (idx / 256)) with idx
    by (pose proof (Z.div_mod idx 256); lia).
  reflexivity.
Qed.

Lemma decode_children_middle (cs : list (Z * Z)) :
  forall (data pre post : list Z) (i : nat),
    data = pre ++ concat (map child_bytes cs) ++ post ->
    length pre = (36 + i * 3)%nat ->
    Forall child_ok cs ->
    mapM (decode_child data) (seq i (length cs)) = Ok cs.
Proof.
  induction cs as [|e cs IH]; intros data pre post i Hdata Hpre Hok;
    [reflexivity|].
  apply Forall_cons in Hok as [He Hok].
  cbn [length seq mapM].
  rewrite (decode_child_middle data pre (concat (map child_bytes cs) ++ post) e)
    by (try assumption; rewrite Hdata; app_eq).
  cbn [rbind].
  rewrite (IH data (pre ++ child_bytes e) post (S i))
    by (try assumption; try (rewrite Hdata; app_eq);
        rewrite length_app; cbn [child_bytes length]; lia).
  reflexivity.
Qed.

(** Reading back what [_write_node] stored. *)
Lemma decode_node_layout (ch : list Z) (t : bool) (vs : list Z)
    (cs : list (Z * Z)) :
  encodable ch vs cs ->
  decode_node (layout ch t vs cs) = Ok (mkNode ch t vs cs).
Proof.
  intros (Hch & Hvs & Hu32 & Hcs & Hok).
  destruct ch as [|c0 [|]]; try discriminate Hch. clear Hch.
  set (tb := if t then 1 else 0).
  set (VB := concat (map value_bytes vs)).
  set (Z1 := replicate (32 - 4 * length vs) 0).
  set (CB := concat (map child_bytes cs)).
  set (Z2 := replicate (988 - 3 * length cs) 0).
  set (nv := Z.of_nat (length vs)). set (nc := Z.of_nat (length cs)).
  assert (Hdata : layout [c0] t vs cs
                  = [c0; tb; nv] ++ VB ++ Z1 ++ [nc] ++ CB ++ Z2) by reflexivity.
  assert (HVB : length VB = (4 * length vs)%nat) by apply length_value_bytes.
  assert (HZ1 : length Z1 = (32 - 4 * length vs)%nat) by apply length_replicate.
  revert Hdata. generalize (layout [c0] t vs cs). intros data Hdata.
  unfold decode_node.
  rewrite (getitem_middle data [c0] ([nv] ++ VB ++ Z1 ++ [nc] ++ CB ++ Z2) tb)
    by (rewrite ?Hdata; reflexivity).
  cbn [rbind].
  rewrite (getitem_middle data [c0; tb] (VB ++ Z1 ++ [nc] ++ CB ++ Z2) nv)
    by (rewrite ?Hdata; reflexivity).
  cbn [rbind]. unfold nv at 1 2. rewrite Nat2Z.id.
  rewrite (slice_middle data [c0; tb; nv] VB (Z1 ++ [nc] ++ CB ++ Z2))
    by (try exact Hdata; cbn [length]; lia).
  unfold VB at 1. rewrite unpack_Is_value_bytes by assumption.
  cbn [rbind].
  rewrite (getitem_middle data ([c0; tb; nv] ++ VB ++ Z1) (CB ++ Z2) nc)
    by (try (rewrite Hdata; app_eq); rewrite !length_app; cbn [length]; lia).
  cbn [rbind]. unfold nc at 1. rewrite Nat2Z.id.
  rewrite (decode_children_middle cs data ([c0; tb; nv] ++ VB ++ Z1 ++ [nc]) Z2 0)
    by (try assumption; try (rewrite Hdata; app_eq);
        rewrite !length_app; cbn [length]; lia).
  cbn [rbind].
  replace (slice data 0 1) with [c0]
    by (rewrite Hdata; reflexivity).
  f_equal. f_equal. unfold tb. destruct t; reflexivity.
Qed.

Lemma length_layout (ch : list Z) (t : bool) (vs : list Z) (cs : list (Z * Z)) :
  encodable ch vs cs -> length (layout ch t vs cs) = 1024%nat.
Proof.
  intros (Hch & Hvs & Hu32 & Hcs & Hok). unfold layout.
  rewrite !length_app, !length_replicate, length_value_bytes,
    length_child_bytes.
  cbn [length]. lia.
Qed.

(** ** The file layer *)

Lemma offset_of_nat (id : Z) : offset_of id = (1024 * Z.to_nat id)%nat.
Proof. unfold offset_of, NODE_SIZE. lia. Qed.

Lemma lookup_record (c : list Z) (id : Z) (i : nat) :
  record c id !! i =
  if decide (i < 1024)%nat then c !! (offset_of id + i)%nat else None.
Proof.
  unfold record. rewrite node_size_nat, lookup_take, lookup_drop. reflexivity.
Qed.

Lemma lookup_put (c buf : list Z) (id : Z) (i : nat) :
  (offset_of id <= length c)%nat ->
  put c id buf !! i =
  if decide (offset_of id <= i < offset_of id + length buf)%nat
  then buf !! (i - offset_of id)%nat else c !! i.
Proof.
  intros Hle. unfold put.
  replace (offset_of id - length c)%nat with 0%nat by lia. cbn [replicate app].
  assert (Htake : length (take (offset_of id) c) = offset_of id)
    by (rewrite length_take; lia).
  destruct (decide _) as [[H1 H2]|Hout].
  - rewrite lookup_app_r by lia. rewrite Htake.
    apply lookup_app_l. lia.
  - destruct (Nat.lt_ge_cases i (offset_of id)).
    + rewrite lookup_app_l by lia. apply lookup_take_lt. lia.
    + rewrite lookup_app_r by lia. rewrite Htake.
      rewrite lookup_app_r by lia. rewrite lookup_drop. f_equal. lia.
Qed.

Lemma length_put (c buf : list Z) (id : Z) :
  (offset_of id <= length c)%nat ->
  length (put c id buf) = (length c `max` (offset_of id + length buf))%nat.
Proof.
  intros. unfold put.
  rewrite !length_app, length_take, length_replicate, length_drop. lia.
Qed.

Lemma record_put_same (c buf : list Z) (id : Z) :
  (offset_of id <= length c)%nat -> length buf = 1024%nat ->
  record (put c id buf) id = buf.
Proof.
  intros Hle Hbuf. apply list_eq. intros i.
  rewrite lookup_record, lookup_put by assumption.
  destruct (decide (i < 1024)%nat).
  - destruct (decide _); [f_equal; lia | lia].
  - symmetry. apply lookup_ge_None. lia.
Qed.

Lemma record_put_other (c buf : list Z) (id j : Z) :
  (offset_of id <= length c)%nat -> length buf = 1024%nat ->
  0 <= id -> 0 <= j -> j <> id ->
  record (put c id buf) j = record c j.
Proof.
  intros Hle Hbuf Hid Hj Hne. apply list_eq. intros i.
  rewrite !lookup_record, lookup_put by assumption.
  destruct (decide (i < 1024)%nat); [|reflexivity].
  destruct (decide _) as [Hin|]; [|reflexivity].
  rewrite !offset_of_nat in Hin. lia.
Qed.

(** [_read_node] only moves the position; its outcome depends on the
    contents alone. *)
Lemma read_node_spec (id : Z) (f : File) :
  exists p, _read_node id f = (read_pure (content f) id, mkFile (content f) p).
Proof.
  unfold _read_node, read_pure, bind, seek, read, lift, ret, record, offset_of.
  replace (id * NODE_SIZE <? 0) with (id <? 0) by (unfold NODE_SIZE; lia).
  destruct (id <? 0); [exists (pos f); destruct f; reflexivity|].
  cbn [content pos].
  destruct (take _ _) as [|b data]; [eexists; reflexivity|].
  destruct (decode_node (b :: data)); eexists; reflexivity.
Qed.

Lemma get_next_node_id_spec (f : File) :
  exists p, _get_next_node_id f = (Ok (nodes (content f)), mkFile (content f) p).
Proof. eexists. reflexivity. Qed.

Lemma write_node_spec (id : Z) (ch : list Z) (t : bool) (vs : list Z)
    (cs : list (Z * Z)) (f : File) :
  encodable ch vs cs -> 0 <= id ->
  exists p, _write_node id ch t vs cs f
            = (Ok tt, mkFile (put (content f) id (layout ch t vs cs)) p).
Proof.
  intros Henc Hid.
  unfold _write_node, bind, lift, seek, write, flush, ret.
  rewrite encode_node_layout by assumption.
  replace (id * NODE_SIZE <? 0) with false by (unfold NODE_SIZE; lia).
  cbn [content pos]. eexists. reflexivity.
Qed.

Lemma node_at_put_same (c : list Z) (id : Z) (ch : list Z) (t : bool)
    (vs : list Z) (cs : list (Z * Z)) :
  (offset_of id <= length c)%nat -> 0 <= id -> encodable ch vs cs ->
  node_at (put c id (layout ch t vs cs)) id = Some (mkNode ch t vs cs).
Proof.
  intros Hle Hid Henc. unfold node_at, read_pure.
  replace (id <? 0) with false by lia.
  rewrite record_put_same by auto using length_layout.
  pose proof (length_layout ch t vs cs Henc) as Hlen.
  pose proof (decode_node_layout ch t vs cs Henc) as Hdec.
  destruct (layout ch t vs cs); [discriminate Hlen|].
  rewrite Hdec. reflexivity.
Qed.

Lemma node_at_put_other (c buf : list Z) (id j : Z) :
  (offset_of id <= length c)%nat -> length buf = 1024%nat ->
  0 <= id -> 0 <= j -> j <> id ->
  node_at (put c id buf) j = node_at c j.
Proof.
  intros. unfold node_at, read_pure.
  rewrite record_put_other by assumption. reflexivity.
Qed.

Lemma aligned_offset (c : list Z) (id : Z) :
  Z.of_nat (length c) = NODE_SIZE * nodes c -> 0 <= id <= nodes c ->
  (offset_of id <= length c)%nat.
Proof. unfold offset_of, NODE_SIZE. intros. nia. Qed.

Lemma nodes_put (c buf : list Z) (id : Z) :
  Z.of_nat (length c) = NODE_SIZE * nodes c -> 0 <= id <= nodes c ->
  length buf = 1024%nat ->
  Z.of_nat (length (put c id buf)) = NODE_SIZE * Z.max (nodes c) (id + 1) /\
  nodes (put c id buf) = Z.max (nodes c) (id + 1).
Proof.
  intros Hal Hid Hbuf.
  assert (Hlen : Z.of_nat (length (put c id buf))
                 = NODE_SIZE * Z.max (nodes c) (id + 1)).
  { rewrite length_put by (apply aligned_offset; assumption).
    rewrite offset_of_nat, Hbuf. unfold NODE_SIZE in *. lia. }
  split; [exact Hlen|].
  unfold nodes at 1. rewrite Hlen. unfold NODE_SIZE.
  rewrite Z.mul_comm. apply Z.div_mul. lia.
Qed.

(** ** The invariant *)

Lemma nodup_bounded_length (l : list Z) (k : nat) :
  NoDup l -> Forall (fun b => 0 <= b < Z.of_nat k) l -> (length l <= k)%nat.
Proof.
  intros Hnd Hb.
  rewrite <- (length_seq k 0), <- (length_map Z.of_nat).
  apply NoDup_incl_length; [apply NoDup_ListNoDup; exact Hnd|].
  intros b Hin. apply list_elem_of_In in Hin.
  rewrite Forall_forall in Hb. specialize (Hb b Hin).
  apply in_map_iff. exists (Z.to_nat b). split; [lia|].
  apply in_seq. lia.
Qed.

Lemma find_child_None (cs : list (Z * Z)) (b : Z) :
  find_child cs b = None <-> b ∉ map fst cs.
Proof.
  induction cs as [|[c idx] cs IH]; simpl.
  - split; [intros _; apply not_elem_of_nil | reflexivity].
  - rewrite not_elem_of_cons. destruct (Z.eqb_spec c b) as [->|Hne].
    + split; [discriminate | intros [[] _]; reflexivity].
    + rewrite IH. split; [intros; split; congruence | intros [_ ?]; assumption].
Qed.

Lemma find_child_Some (cs : list (Z * Z)) (b m : Z) :
  find_child cs b = Some m -> (b, m) ∈ cs.
Proof.
  induction cs as [|[c idx] cs IH]; simpl; [discriminate|].
  destruct (Z.eqb_spec c b) as [->|Hne].
  - intros [= ->]. apply list_elem_of_here.
  - intros H. apply list_elem_of_further, IH, H.
Qed.

Lemma find_child_app (cs cs' : list (Z * Z)) (b : Z) :
  find_child (cs ++ cs') b =
  match find_child cs b with Some m => Some m | None => find_child cs' b end.
Proof.
  induction cs as [|[c idx] cs IH]; simpl; [reflexivity|].
  destruct (c =? b); [reflexivity | exact IH].
Qed.

(** With distinct bytes, every entry of the table is the one the search
    finds. *)
Lemma find_child_elem (cs : list (Z * Z)) (b m : Z) :
  NoDup (map fst cs) -> (b, m) ∈ cs -> find_child cs b = Some m.
Proof.
  induction cs as [|[c idx] cs IH]; simpl; intros Hnd Hin.
  - apply elem_of_nil in Hin as [].
  - apply NoDup_cons in Hnd as [Hnotin Hnd].
    apply elem_of_cons in Hin as [[= <- <-]|Hin].
    + rewrite Z.eqb_refl. reflexivity.
    + destruct (Z.eqb_spec c b) as [->|Hne]; [|auto].
      exfalso. apply Hnotin.
      apply (list_elem_of_fmap_2 fst) in Hin. exact Hin.
Qed.

Lemma wf_node_encodable (n id : Z) (nd : Node) :
  wf_node n id nd -> 0 <= id -> n <= 65536 ->
  encodable (char nd) (values nd) (children nd).
Proof.
  intros (Hch & Hlen & Hu32 & _ & _ & Hnd & Hcs) Hid Hn.
  repeat split; try assumption.
  - transitivity 245%nat; [|lia].
    rewrite <- (length_map fst). apply nodup_bounded_length; [exact Hnd|].
    apply Forall_fmap. eapply Forall_impl; [exact Hcs|].
    intros e [Hb _]. unfold utf8_byte in Hb. simpl. lia.
  - eapply Forall_impl; [exact Hcs|].
    intros e [Hb Hi]. unfold child_ok, byte, u16, utf8_byte in *. lia.
Qed.

Lemma wf_node_mono (n n' id : Z) (nd : Node) :
  wf_node n id nd -> n <= n' -> wf_node n' id nd.
Proof.
  intros (Hch & Hlen & Hu32 & Hndv & Hterm & Hnd & Hcs) Hn.
  repeat split; try assumption.
  eapply Forall_impl; [exact Hcs|]. intros e [? ?]. split; [assumption|lia].
Qed.

Lemma node_at_range (c : list Z) (j : Z) (nd : Node) :
  Z.of_nat (length c) = NODE_SIZE * nodes c ->
  node_at c j = Some nd -> 0 <= j < nodes c.
Proof.
  intros Hal. unfold node_at, read_pure.
  destruct (Z.ltb_spec j 0); [discriminate|].
  destruct (Z.lt_ge_cases j (nodes c)); [lia|].
  unfold record. rewrite drop_ge; [rewrite take_nil; discriminate|].
  rewrite offset_of_nat. unfold NODE_SIZE in Hal. lia.
Qed.

Lemma store_node_same (c : list Z) (id : Z) (nd : Node) :
  (offset_of id <= length c)%nat -> 0 <= id ->
  encodable (char nd) (values nd) (children nd) ->
  node_at (store_node c id nd) id = Some nd.
Proof.
  intros. unfold store_node. rewrite node_at_put_same by assumption.
  destruct nd; reflexivity.
Qed.

Lemma store_node_other (c : list Z) (id j : Z) (nd : Node) :
  (offset_of id <= length c)%nat -> 0 <= id -> j <> id ->
  encodable (char nd) (values nd) (children nd) ->
  node_at (store_node c id nd) j = node_at c j.
Proof.
  intros Hle Hid Hne Henc. destruct (Z.lt_ge_cases j 0) as [Hneg|Hj].
  - unfold node_at, read_pure. replace (j <? 0) with true by lia. reflexivity.
  - apply node_at_put_other; auto using length_layout.
Qed.

Lemma nodes_store_node (c : list Z) (id : Z) (nd : Node) :
  Z.of_nat (length c) = NODE_SIZE * nodes c -> 0 <= id <= nodes c ->
  encodable (char nd) (values nd) (children nd) ->
  Z.of_nat (length (store_node c id nd))
    = NODE_SIZE * nodes (store_node c id nd) /\
  nodes (store_node c id nd) = Z.max (nodes c) (id + 1).
Proof.
  intros Hal Hid Henc.
  destruct (nodes_put c (layout (char nd) (is_terminal nd) (values nd)
                                (children nd)) id Hal Hid
              (length_layout _ _ _ _ Henc)) as [H1 H2].
  unfold store_node. rewrite H2. auto.
Qed.

Lemma extends_refl (c : list Z) : extends c c.
Proof. intros j nd H. exists nd. auto. Qed.

Lemma extends_trans (c1 c2 c3 : list Z) :
  extends c1 c2 -> extends c2 c3 -> extends c1 c3.
Proof.
  intros H12 H23 j nd H.
  destruct (H12 j nd H) as (nd2 & H2 & Ht2 & Hv2 & Hc2).
  destruct (H23 j nd2 H2) as (nd3 & H3 & Ht3 & Hv3 & Hc3).
  exists nd3. repeat split; try congruence. auto.
Qed.

(** Rewriting a node in place, keeping its edges. *)
Lemma wf_update (c : list Z) (id : Z) (nd nd' : Node) :
  wf_store c -> node_at c id = Some nd ->
  wf_node (nodes c) id nd' ->
  wf_store (store_node c id nd') /\
  nodes (store_node c id nd') = nodes c /\
  node_at (store_node c id nd') id = Some nd' /\
  (forall j, j <> id -> node_at (store_node c id nd') j = node_at c j).
Proof.
  intros (Hal & Hn & Hwf) Hat Hnd'.
  pose proof (node_at_range c id nd Hal Hat) as Hid.
  assert (Henc : encodable (char nd') (values nd') (children nd'))
    by (eapply wf_node_encodable; eauto; lia).
  assert (Hoff : (offset_of id <= length c)%nat)
    by (apply aligned_offset; [assumption|lia]).
  destruct (nodes_store_node c id nd' Hal ltac:(lia) Henc) as [Hal' Hn'].
  assert (Hsame : nodes (store_node c id nd') = nodes c) by lia.
  assert (Hat' : node_at (store_node c id nd') id = Some nd')
    by (apply store_node_same; [assumption|lia|assumption]).
  assert (Hother : forall j, j <> id ->
            node_at (store_node c id nd') j = node_at c j)
    by (intros; apply store_node_other; [assumption|lia|assumption|assumption]).
  repeat split; try assumption; try lia.
  rewrite Hsame. intros j Hj. destruct (Z.eq_dec j id) as [->|Hne].
  - exists nd'. auto.
  - rewrite Hother by assumption. auto.
Qed.

Lemma wf_node_fresh (n b : Z) : wf_node (n + 1) n (fresh_node b).
Proof.
  unfold wf_node, fresh_node. cbn.
  repeat split; auto using NoDup_nil_2; lia.
Qed.

Lemma wf_node_with_child (n pid b : Z) (nd : Node) :
  wf_node n pid nd -> 0 <= pid < n ->
  find_child (children nd) b = None -> utf8_byte b ->
  wf_node (n + 1) pid (with_child nd b n).
Proof.
  intros (Hch & Hlen & Hu32 & Hndv & Hterm & Hnd & Hcs) Hpid Hfind Hb.
  unfold wf_node, with_child. cbn.
  repeat split; try assumption.
  - rewrite fmap_app. apply NoDup_app. repeat split.
    + exact Hnd.
    + intros x Hx Hxb. apply list_elem_of_singleton in Hxb as ->.
      apply find_child_None in Hfind. contradiction.
    + apply NoDup_singleton.
  - apply Forall_app. split.
    + eapply Forall_impl; [exact Hcs|]. intros e [? ?]. split; [assumption|lia].
    + apply Forall_singleton. cbn. split; [assumption|lia].
Qed.

(** Creating a child: the parent is rewritten with the new edge and the
    empty child record is appended. *)
Lemma wf_add_child (c : list Z) (pid b : Z) (nd : Node) :
  wf_store c -> node_at c pid = Some nd ->
  find_child (children nd) b = None -> utf8_byte b -> nodes c < 65536 ->
  wf_store (add_child c pid b nd) /\
  nodes (add_child c pid b nd) = nodes c + 1 /\
  node_at (add_child c pid b nd) pid = Some (with_child nd b (nodes c)) /\
  node_at (add_child c pid b nd) (nodes c) = Some (fresh_node b) /\
  extends c (add_child c pid b nd).
Proof.
  intros (Hal & Hn & Hwf) Hat Hfind Hb Hroom.
  pose proof (node_at_range c pid nd Hal Hat) as Hpid.
  destruct (Hwf pid Hpid) as (nd0 & Hat0 & Hnd0).
  assert (nd0 = nd) as -> by congruence. clear Hat0.
  set (n := nodes c) in *.
  pose proof (wf_node_with_child n pid b nd Hnd0 Hpid Hfind Hb) as Hnd1.
  pose proof (wf_node_fresh n b) as Hfr.
  assert (Henc1 : encodable (char (with_child nd b n))
                    (values (with_child nd b n)) (children (with_child nd b n)))
    by (eapply wf_node_encodable; eauto; lia).
  assert (Hencf : encodable (char (fresh_node b)) (values (fresh_node b))
                    (children (fresh_node b)))
    by (eapply wf_node_encodable; eauto; lia).
  unfold add_child. fold n.
  set (c1 := store_node c pid (with_child nd b n)).
  assert (Hoff : (offset_of pid <= length c)%nat)
    by (apply aligned_offset; [assumption|fold n; lia]).
  destruct (nodes_store_node c pid _ Hal ltac:(fold n; lia) Henc1)
    as [Hal1 Hn1].
  fold c1 in Hal1, Hn1. fold n in Hn1.
  assert (Hn1' : nodes c1 = n) by lia.
  assert (Hoff1 : (offset_of n <= length c1)%nat)
    by (apply aligned_offset; [assumption|lia]).
  destruct (nodes_store_node c1 n _ Hal1 ltac:(lia) Hencf) as [Hal2 Hn2].
  set (c2 := store_node c1 n (fresh_node b)) in *.
  assert (Hn2' : nodes c2 = n + 1) by lia.
  assert (Hp : node_at c2 pid = Some (with_child nd b n)).
  { unfold c2. rewrite store_node_other by (try assumption; lia).
    apply store_node_same; [assumption|lia|assumption]. }
  assert (Hf : node_at c2 n = Some (fresh_node b))
    by (apply store_node_same; [assumption|lia|assumption]).
  assert (Hother : forall j, j <> pid -> j <> n -> node_at c2 j = node_at c j).
  { intros j H1 H2. unfold c2, c1.
    rewrite !store_node_other by (try assumption; lia). reflexivity. }
  repeat split; try assumption; try lia.
  - rewrite Hn2'. intros id Hid.
    destruct (Z.eq_dec id n) as [->|Hne1]; [eauto|].
    destruct (Z.eq_dec id pid) as [->|Hne2]; [eauto|].
    rewrite Hother by assumption.
    destruct (Hwf id ltac:(fold n; lia)) as (nd' & Hat' & Hnd').
    exists nd'. split; [assumption|]. eapply wf_node_mono; [eassumption|lia].
  - intros j ndj Hj.
    pose proof (node_at_range c j ndj Hal Hj) as Hjr. fold n in Hjr.
    destruct (Z.eq_dec j pid) as [->|Hne].
    + assert (ndj = nd) as -> by congruence.
      exists (with_child nd b n). repeat split; try assumption.
      intros b' m Hb'. cbn. rewrite find_child_app, Hb'. reflexivity.
    + exists ndj. rewrite Hother by (try assumption; lia). auto.
Qed.

(** ** [_find_or_create_child] *)

Lemma node_at_read (c : list Z) (id : Z) (nd : Node) :
  node_at c id = Some nd -> read_pure c id = Ok (Some nd).
Proof.
  unfold node_at. destruct (read_pure c id) as [[nd'|]|]; congruence.
Qed.

Ltac run_read :=
  match goal with
  | |- context [_read_node ?id ?f] =>
      let p := fresh "p" in
      let E := fresh "E" in
      destruct (read_node_spec id f) as [p E]; rewrite E; clear E;
      cbn [content]
  end.

Lemma find_or_create_found (f : File) (pid b m : Z) (nd : Node) :
  node_at (content f) pid = Some nd ->
  find_child (children nd) b = Some m ->
  exists p, _find_or_create_child pid b f = (Ok m, mkFile (content f) p).
Proof.
  intros Hat Hfind. unfold _find_or_create_child, bind. run_read.
  rewrite (node_at_read _ _ _ Hat). cbn [subscript]. rewrite Hfind.
  eexists. reflexivity.
Qed.

Lemma find_or_create_new (f : File) (pid b : Z) (nd : Node) :
  wf_store (content f) ->
  node_at (content f) pid = Some nd ->
  find_child (children nd) b = None -> utf8_byte b ->
  nodes (content f) < 65536 ->
  exists p, _find_or_create_child pid b f
            = (Ok (nodes (content f)), mkFile (add_child (content f) pid b nd) p).
Proof.
  intros Hwf Hat Hfind Hb Hroom.
  pose proof Hwf as (Hal & Hn & Hall).
  pose proof (node_at_range _ _ _ Hal Hat) as Hpid.
  destruct (Hall pid Hpid) as (nd0 & Hat0 & Hnd0).
  assert (nd0 = nd) as -> by congruence. clear Hat0.
  pose proof (wf_node_with_child _ _ _ _ Hnd0 Hpid Hfind Hb) as Hnd1.
  assert (Henc1 : encodable (char nd) (values nd)
                    (children nd ++ [(b, nodes (content f))]))
    by (apply (wf_node_encodable _ _ _ Hnd1); lia).
  assert (Hencf : encodable [b] [] []).
  { apply (wf_node_encodable _ _ _ (wf_node_fresh (nodes (content f)) b)); lia. }
  unfold _find_or_create_child, bind. run_read.
  rewrite (node_at_read _ _ _ Hat). cbn [subscript]. rewrite Hfind.
  destruct (get_next_node_id_spec (mkFile (content f) p)) as [p1 E1].
  rewrite E1. clear E1. cbn [content].
  destruct (write_node_spec pid (char nd) (is_terminal nd) (values nd)
              (children nd ++ [(b, nodes (content f))])
              (mkFile (content f) p1) Henc1 ltac:(lia)) as [p2 E2].
  rewrite E2. clear E2. cbn [content].
  match goal with |- context [_write_node _ _ _ _ _ ?g] =>
    destruct (write_node_spec (nodes (content f)) [b] false [] [] g Hencf
                ltac:(lia)) as [p3 E3]
  end.
  rewrite E3. clear E3. cbn [content].
  exists p3. reflexivity.
Qed.

(** At the ceiling of 65536 nodes a new edge cannot be stored:
    [struct.pack_into] refuses the identifier before anything is written. *)
Lemma find_or_create_overflow (f : File) (pid b : Z) (nd : Node) :
  wf_store (content f) ->
  node_at (content f) pid = Some nd ->
  find_child (children nd) b = None -> utf8_byte b ->
  nodes (content f) = 65536 ->
  exists p, _find_or_create_child pid b f
            = (Raise StructError, mkFile (content f) p).
Proof.
  intros Hwf Hat Hfind Hb Hfull.
  pose proof Hwf as (Hal & Hn & Hall).
  pose proof (node_at_range _ _ _ Hal Hat) as Hpid.
  destruct (Hall pid Hpid) as (nd0 & Hat0 & Hnd0).
  assert (nd0 = nd) as -> by congruence. clear Hat0.
  pose proof (wf_node_with_child _ _ _ _ Hnd0 Hpid Hfind Hb) as Hnd1.
  assert (Henc : encodable (char nd) (values nd) (children nd))
    by (apply (wf_node_encodable _ _ _ Hnd0); lia).
  assert (Hlen : (length (children nd) < 255)%nat).
  { destruct Hnd1 as (_ & _ & _ & _ & _ & Hnd & Hcs). cbn in Hnd, Hcs.
    assert (length (map fst (children nd ++ [(b, nodes (content f))])) <= 245)%nat.
    { apply nodup_bounded_length; [exact Hnd|].
      apply Forall_fmap. eapply Forall_impl; [exact Hcs|].
      intros e [He _]. unfold utf8_byte in He. simpl. lia. }
    rewrite length_map, length_app in H. cbn [length] in H. lia. }
  unfold _find_or_create_child, bind. run_read.
  rewrite (node_at_read _ _ _ Hat). cbn [subscript]. rewrite Hfind.
  destruct (get_next_node_id_spec (mkFile (content f) p)) as [p1 E1].
  rewrite E1. clear E1. cbn [content].
  unfold _write_node, bind, lift.
  rewrite encode_node_overflow;
    [ eexists; reflexivity | assumption | assumption
    | unfold byte, utf8_byte in *; lia | unfold u16; lia ].
Qed.

(** ** The loop of [insert] *)

Lemma extends_edges_kept (c c' : list Z) : extends c c' -> edges_kept c c'.
Proof.
  intros Hext j nd Hat. destruct (Hext j nd Hat) as (nd' & ? & _ & _ & ?).
  eauto.
Qed.

Lemma walk_kept (c c' : list Z) (bs : list Z) :
  edges_kept c c' ->
  forall j m, walk c j bs = Some m -> walk c' j bs = Some m.
Proof.
  intros Hext. induction bs as [|b bs IH]; intros j m; cbn; [auto|].
  destruct (node_at c j) as [nd|] eqn:Hat; [|discriminate].
  destruct (find_child (children nd) b) as [k|] eqn:Hfind; [|discriminate].
  destruct (Hext j nd Hat) as (nd' & Hat' & Hcs).
  rewrite Hat', (Hcs b k Hfind). apply IH.
Qed.

Lemma walk_extends (c c' : list Z) (bs : list Z) :
  extends c c' ->
  forall j m, walk c j bs = Some m -> walk c' j bs = Some m.
Proof. intros. eapply walk_kept; eauto using extends_edges_kept. Qed.

Lemma new_nodes_walk (c : list Z) (bs : list Z) :
  forall id, is_Some (walk c id bs) -> new_nodes c id bs = 0.
Proof.
  induction bs as [|b bs IH]; intros id; cbn; [reflexivity|].
  destruct (node_at c id) as [nd|]; [|reflexivity].
  destruct (find_child (children nd) b) as [k|]; [apply IH|].
  intros [x Hx]. discriminate.
Qed.

Lemma new_nodes_fresh (c : list Z) (id : Z) (nd : Node) (bs : list Z) :
  node_at c id = Some nd -> children nd = [] ->
  new_nodes c id bs = Z.of_nat (length bs).
Proof.
  intros Hat Hcs. destruct bs as [|b bs]; cbn; [reflexivity|].
  rewrite Hat, Hcs. reflexivity.
Qed.

Lemma walk_fresh (c : list Z) (id x : Z) (nd : Node) (bs : list Z) :
  node_at c id = Some nd -> children nd = [] ->
  walk c id bs = Some x -> x = id.
Proof.
  intros Hat Hcs. destruct bs as [|b bs]; cbn; [congruence|].
  rewrite Hat, Hcs. discriminate.
Qed.

Lemma wf_child_range (c : list Z) (id b m : Z) (nd : Node) :
  wf_store c -> node_at c id = Some nd ->
  find_child (children nd) b = Some m ->
  id < m < nodes c /\ 0 <= id.
Proof.
  intros (Hal & Hn & Hall) Hat Hfind.
  pose proof (node_at_range _ _ _ Hal Hat) as Hid.
  destruct (Hall id Hid) as (nd0 & Hat0 & Hnd0).
  assert (nd0 = nd) as -> by congruence.
  destruct Hnd0 as (_ & _ & _ & _ & _ & _ & Hcs).
  rewrite Forall_forall in Hcs.
  specialize (Hcs _ (find_child_Some _ _ _ Hfind)). cbn in Hcs. lia.
Qed.

Lemma wf_node_at (c : list Z) (id : Z) :
  wf_store c -> 0 <= id < nodes c ->
  exists nd, node_at c id = Some nd /\ wf_node (nodes c) id nd.
Proof. intros (_ & _ & Hall). apply Hall. Qed.

Lemma file_eta (f : File) : f = mkFile (content f) (pos f).
Proof. destruct f; reflexivity. Qed.

(** The loop creates the missing nodes of the path and ends on the node
    the bytes lead to; nothing that was stored is lost. *)
Lemma insert_loop_ok (bs : list Z) :
  forall (f : File) (id : Z),
    wf_store (content f) -> 0 <= id < nodes (content f) ->
    Forall utf8_byte bs ->
    nodes (content f) + new_nodes (content f) id bs <= 65536 ->
    exists c' n p,
      insert_loop bs id f = (Ok n, mkFile c' p) /\
      wf_store c' /\ extends (content f) c' /\
      nodes c' = nodes (content f) + new_nodes (content f) id bs /\
      walk c' id bs = Some n /\
      (is_Some (walk (content f) id bs) -> c' = content f) /\
      (walk (content f) id bs = None ->
       exists nd, node_at c' n = Some nd /\
                  is_terminal nd = false /\ values nd = []).
Proof.
  induction bs as [|b bs IH]; intros f id Hwf Hid Hbs Hroom.
  - exists (content f), id, (pos f). cbn. rewrite <- file_eta.
    split_and!; auto using extends_refl; try lia. discriminate.
  - apply Forall_cons in Hbs as [Hb Hbs].
    destruct (wf_node_at _ _ Hwf Hid) as (nd & Hat & Hnd).
    cbn [insert_loop new_nodes walk] in *. rewrite Hat in *.
    unfold bind.
    destruct (find_child (children nd) b) as [m|] eqn:Hfind.
    + destruct (find_or_create_found f id b m nd Hat Hfind) as [p1 E].
      rewrite E. clear E.
      destruct (wf_child_range _ _ _ _ _ Hwf Hat Hfind) as [Hm _].
      destruct (IH (mkFile (content f) p1) m Hwf ltac:(cbn; lia) Hbs Hroom)
        as (c' & n & p & Hrun & Hwf' & Hext & Hn & Hwalk & Hsame & Hnone).
      cbn [content] in *.
      exists c', n, p. split_and!; try assumption.
      destruct (Hext id nd Hat) as (nd' & Hat' & _ & _ & Hcs).
      rewrite Hat', (Hcs b m Hfind). exact Hwalk.
    + cbn [length] in Hroom.
      assert (Hlt : nodes (content f) < 65536) by lia.
      destruct (find_or_create_new f id b nd Hwf Hat Hfind Hb Hlt) as [p1 E].
      rewrite E. clear E.
      destruct (wf_add_child _ _ _ _ Hwf Hat Hfind Hb Hlt)
        as (Hwf1 & Hn1 & Hp1 & Hf1 & Hext1).
      set (c1 := add_child (content f) id b nd) in *.
      set (n0 := nodes (content f)) in *.
      assert (Hnew : new_nodes c1 n0 bs = Z.of_nat (length bs))
        by (eapply new_nodes_fresh; [exact Hf1|reflexivity]).
      destruct (IH (mkFile c1 p1) n0 Hwf1 ltac:(cbn; lia) Hbs
                  ltac:(cbn [content]; lia))
        as (c' & n & p & Hrun & Hwf' & Hext & Hn & Hwalk & Hsame & Hnone).
      cbn [content] in *.
      exists c', n, p. split_and!.
      * exact Hrun.
      * exact Hwf'.
      * eapply extends_trans; eassumption.
      * cbn [length]. lia.
      * destruct (Hext id _ Hp1) as (nd' & Hat' & _ & _ & Hcs).
        rewrite Hat', (Hcs b n0); [exact Hwalk|].
        cbn. rewrite find_child_app, Hfind. cbn. rewrite Z.eqb_refl.
        reflexivity.
      * intros [x Hx]. discriminate.
      * intros _. destruct (walk c1 n0 bs) as [x|] eqn:Hw; [|auto].
        assert (x = n0) by (eapply walk_fresh; [exact Hf1|reflexivity|exact Hw]).
        subst x. rewrite (Hsame ltac:(eauto)) in *.
        assert (n = n0) by congruence. subst n.
        exists (fresh_node b). auto.
Qed.

(** ** UTF-8 *)

Lemma range_check (P : Z -> bool) (n : nat) :
  forallb P (map Z.of_nat (seq 0 n)) = true ->
  forall x, 0 <= x < Z.of_nat n -> P x = true.
Proof.
  intros Hall x Hx. rewrite forallb_forall in Hall. apply Hall.
  apply in_map_iff. exists (Z.to_nat x). split; [lia|]. apply in_seq. lia.
Qed.

Lemma utf8_byteb_spec (b : Z) : utf8_byteb b = true -> utf8_byte b.
Proof. unfold utf8_byteb, utf8_byte. intros H%andb_true_iff. lia. Qed.

Lemma lor_lead (a x : Z) (n : nat) :
  forallb (fun x => utf8_byteb (Z.lor a x)) (map Z.of_nat (seq 0 n)) = true ->
  0 <= x < Z.of_nat n -> utf8_byte (Z.lor a x).
Proof.
  intros Hall Hx. apply utf8_byteb_spec.
  exact (range_check (fun x => utf8_byteb (Z.lor a x)) n Hall x Hx).
Qed.

Lemma continuation_byte (y : Z) : utf8_byte (Z.lor 0x80 (Z.land y 0x3F)).
Proof.
  apply (lor_lead 0x80 _ 64); [vm_compute; reflexivity|].
  change 0x3F with (Z.ones 6). rewrite Z.land_ones by lia.
  apply Z.mod_pos_bound. reflexivity.
Qed.

Ltac forall_bytes := repeat first [apply Forall_nil_2 | apply Forall_cons_2].

Lemma utf8_char_bytes (cp : Z) (bs : list Z) :
  utf8_char cp = Ok bs -> Forall utf8_byte bs.
Proof.
  unfold utf8_char.
  destruct (Z.ltb_spec cp 0); [discriminate|].
  destruct (Z.ltb_spec 0x10FFFF cp); [discriminate|]. cbn [orb].
  destruct (Z.ltb_spec cp 0x80).
  { intros [= <-]. forall_bytes. unfold utf8_byte; lia. }
  destruct (Z.ltb_spec cp 0x800).
  { intros [= <-]. forall_bytes; try apply continuation_byte.
    apply (lor_lead 0xC0 _ 32); [vm_compute; reflexivity|].
    rewrite Z.shiftr_div_pow2 by lia. change (2 ^ 6) with 64.
    split; [apply Z.div_pos; lia | apply Z.div_lt_upper_bound; lia]. }
  destruct (Z.ltb_spec cp 0x10000).
  { destruct ((0xD800 <=? cp) && (cp <=? 0xDFFF)); [discriminate|].
    intros [= <-]. forall_bytes; try apply continuation_byte.
    apply (lor_lead 0xE0 _ 16); [vm_compute; reflexivity|].
    rewrite Z.shiftr_div_pow2 by lia. change (2 ^ 12) with 4096.
    split; [apply Z.div_pos; lia | apply Z.div_lt_upper_bound; lia]. }
  intros [= <-]. forall_bytes; try apply continuation_byte.
  apply (lor_lead 0xF0 _ 5); [vm_compute; reflexivity|].
  rewrite Z.shiftr_div_pow2 by lia. change (2 ^ 18) with 262144.
  split; [apply Z.div_pos; lia | apply Z.div_lt_upper_bound; lia].
Qed.

Lemma encode_utf8_bytes (w : str) :
  forall bs, encode_utf8 w = Ok bs -> Forall utf8_byte bs.
Proof.
  induction w as [|cp w IH]; cbn; intros bs.
  - intros [= <-]. constructor.
  - destruct (utf8_char cp) as [b1|] eqn:Hcp; [|discriminate]. cbn.
    destruct (encode_utf8 w) as [b2|]; [|discriminate]. cbn.
    intros [= <-]. apply Forall_app. split; [|auto].
    eapply utf8_char_bytes; eassumption.
Qed.

Lemma encode_utf8_ascii (w : str) :
  Forall ascii w -> encode_utf8 w = Ok w.
Proof.
  induction 1 as [|cp w Hcp _ IH]; cbn [encode_utf8]; [reflexivity|].
  unfold utf8_char, ascii in *.
  replace ((cp <? 0) || (1114111 <? cp)) with false
    by (symmetry; apply orb_false_iff; lia).
  replace (cp <? 128) with true by lia.
  cbn [rbind]. rewrite IH. reflexivity.
Qed.

Lemma encode_utf8_app (p s : str) (bp bs : list Z) :
  encode_utf8 p = Ok bp -> encode_utf8 s = Ok bs ->
  encode_utf8 (p ++ s) = Ok (bp ++ bs).
Proof.
  revert bp. induction p as [|cp p IH]; intros bp; cbn [app encode_utf8].
  - intros [= <-]. auto.
  - destruct (utf8_char cp) as [b1|]; [|discriminate]. cbn [rbind].
    destruct (encode_utf8 p) as [b2|]; [|discriminate]. cbn [rbind].
    intros [= <-] Hs. rewrite (IH b2 eq_refl Hs). cbn [rbind].
    rewrite app_assoc. reflexivity.
Qed.

(** ** [lookup] and the descent *)

(** The descent follows [walk] as long as the path exists; it needs nothing
    of the store beyond that. *)
Lemma descend_walk (bs : list Z) :
  forall (f : File) (id n : Z),
    walk (content f) id bs = Some n ->
    exists p, descend bs id f = (Ok (Some n), mkFile (content f) p).
Proof.
  induction bs as [|b bs IH]; intros f id n; cbn [walk descend].
  - intros [= ->]. exists (pos f). unfold ret. rewrite <- file_eta. reflexivity.
  - destruct (node_at (content f) id) as [nd|] eqn:Hat; [|discriminate].
    destruct (find_child (children nd) b) as [m|] eqn:Hfind; [|discriminate].
    intros Hwalk. unfold bind. run_read.
    rewrite (node_at_read _ _ _ Hat). cbn [subscript]. rewrite Hfind.
    apply (IH (mkFile (content f) p) m n Hwalk).
Qed.

(** A byte without an edge ends the descent with the [else] branch. *)
Lemma descend_missing (pre : list Z) (b : Z) (rest : list Z) :
  forall (f : File) (id n : Z) (nd : Node),
    walk (content f) id pre = Some n ->
    node_at (content f) n = Some nd ->
    find_child (children nd) b = None ->
    exists p, descend (pre ++ b :: rest) id f = (Ok None, mkFile (content f) p).
Proof.
  induction pre as [|a pre IH]; intros f id n nd; cbn [walk descend app].
  - intros [= ->] Hat Hfind. unfold bind. run_read.
    rewrite (node_at_read _ _ _ Hat). cbn [subscript]. rewrite Hfind.
    eexists. reflexivity.
  - destruct (node_at (content f) id) as [nd0|] eqn:Hat0; [|discriminate].
    destruct (find_child (children nd0) a) as [m|] eqn:Hfind0; [|discriminate].
    intros Hwalk Hat Hfind. unfold bind. run_read.
    rewrite (node_at_read _ _ _ Hat0). cbn [subscript]. rewrite Hfind0.
    apply (IH (mkFile (content f) p) m n nd Hwalk Hat Hfind).
Qed.

Lemma walk_range (c : list Z) (bs : list Z) :
  wf_store c ->
  forall id n, 0 <= id < nodes c -> walk c id bs = Some n -> 0 <= n < nodes c.
Proof.
  intros Hwf. induction bs as [|b bs IH]; intros id n Hid; cbn.
  - intros [= <-]. exact Hid.
  - destruct (node_at c id) as [nd|] eqn:Hat; [|discriminate].
    destruct (find_child (children nd) b) as [m|] eqn:Hfind; [|discriminate].
    apply IH. destruct (wf_child_range _ _ _ _ _ Hwf Hat Hfind). lia.
Qed.

(** In a well-formed store the descent never raises. *)
Lemma descend_wf (bs : list Z) :
  forall (f : File) (id : Z),
    wf_store (content f) -> 0 <= id < nodes (content f) ->
    exists p, descend bs id f
              = (Ok (walk (content f) id bs), mkFile (content f) p).
Proof.
  induction bs as [|b bs IH]; intros f id Hwf Hid; cbn [walk descend].
  - exists (pos f). unfold ret. rewrite <- file_eta. reflexivity.
  - destruct (wf_node_at _ _ Hwf Hid) as (nd & Hat & _). rewrite Hat.
    unfold bind. run_read.
    rewrite (node_at_read _ _ _ Hat). cbn [subscript].
    destruct (find_child (children nd) b) as [m|] eqn:Hfind.
    + apply (IH (mkFile (content f) p) m Hwf).
      destruct (wf_child_range _ _ _ _ _ Hwf Hat Hfind). cbn. lia.
    + eexists. reflexivity.
Qed.

Lemma root_range (c : list Z) : wf_store c -> 0 <= 0 < nodes c.
Proof. intros (_ & Hn & _). lia. Qed.

(** [lookup] on a well-formed store. *)
Lemma lookup_wf (f : File) (w : str) (bs : list Z) :
  wf_store (content f) -> encode_utf8 w = Ok bs ->
  exists p, lookup w f = (Ok (stored (content f) bs), mkFile (content f) p).
Proof.
  intros Hwf Hw. unfold lookup, bind, lift. rewrite Hw.
  destruct (descend_wf bs f 0 Hwf (root_range _ Hwf)) as [p E].
  rewrite E. clear E. unfold stored.
  destruct (walk (content f) 0 bs) as [n|] eqn:Hwalk;
    [|eexists; reflexivity].
  pose proof (walk_range _ _ Hwf 0 n (root_range _ Hwf) Hwalk) as Hn.
  destruct (wf_node_at _ _ Hwf Hn) as (nd & Hat & _). rewrite Hat.
  run_read. rewrite (node_at_read _ _ _ Hat). cbn [subscript].
  eexists. reflexivity.
Qed.

(** ** [insert] *)

Lemma existsb_eqb (v : Z) (vs : list Z) :
  existsb (Z.eqb v) vs = true <-> v ∈ vs.
Proof.
  rewrite existsb_exists, list_elem_of_In. split.
  - intros (x & Hin & Heq). apply Z.eqb_eq in Heq. congruence.
  - intros Hin. exists v. split; [assumption|apply Z.eqb_refl].
Qed.

Lemma add_value_length (vs : list Z) (v : Z) :
  (length vs <= 8)%nat -> (length (add_value vs v) <= 8)%nat.
Proof.
  intros. unfold add_value, MAX_VALUES.
  destruct (existsb _ _); [assumption|].
  destruct (Z.ltb_spec (Z.of_nat (length vs)) 8); [|assumption].
  rewrite length_app. cbn. lia.
Qed.

Lemma add_value_u32 (vs : list Z) (v : Z) :
  Forall u32 vs -> u32 v -> Forall u32 (add_value vs v).
Proof.
  intros. unfold add_value.
  destruct (existsb _ _); [assumption|].
  destruct (_ <? _); [|assumption].
  apply Forall_app. auto.
Qed.

Lemma add_value_nodup (vs : list Z) (v : Z) :
  NoDup vs -> NoDup (add_value vs v).
Proof.
  intros Hnd. unfold add_value.
  destruct (existsb (Z.eqb v) vs) eqn:Hex; [assumption|].
  destruct (_ <? _); [|assumption].
  apply NoDup_app. split_and!; [assumption| |apply NoDup_singleton].
  intros x Hx Hxv. apply list_elem_of_singleton in Hxv as ->.
  apply existsb_eqb in Hx. congruence.
Qed.

(** A successful [insert]: the key's node is terminal and its values are
    the earlier ones with [value] added by the rule of lines 88-90. *)
Lemma insert_ok (f : File) (w : str) (v : Z) (bs : list Z) :
  wf_store (content f) -> encode_utf8 w = Ok bs -> u32 v ->
  nodes (content f) + new_nodes (content f) 0 bs <= 65536 ->
  exists c' p n nd,
    insert w v f = (Ok tt, mkFile c' p) /\
    wf_store c' /\
    nodes c' = nodes (content f) + new_nodes (content f) 0 bs /\
    edges_kept (content f) c' /\
    walk c' 0 bs = Some n /\ node_at c' n = Some nd /\
    is_terminal nd = true /\
    values nd = add_value (stored (content f) bs) v.
Proof.
  intros Hwf Hw Hv Hroom.
  pose proof (encode_utf8_bytes _ _ Hw) as Hbs.
  unfold insert, bind, lift. rewrite Hw.
  destruct (insert_loop_ok bs f 0 Hwf (root_range _ Hwf) Hbs Hroom)
    as (c1 & n & p1 & Hrun & Hwf1 & Hext & Hn1 & Hwalk1 & Hsame & Hnone).
  rewrite Hrun. clear Hrun.
  pose proof (walk_range _ _ Hwf1 0 n (root_range _ Hwf1) Hwalk1) as Hn.
  destruct (wf_node_at _ _ Hwf1 Hn) as (nd1 & Hat1 & Hnd1).
  run_read. rewrite (node_at_read _ _ _ Hat1). cbn [subscript].
  set (nd2 := mkNode (char nd1) true (add_value (values nd1) v) (children nd1)).
  assert (Hnd2 : wf_node (nodes c1) n nd2).
  { destruct Hnd1 as (Hch & Hlen & Hu32 & Hndv & Hterm & Hnd & Hcs).
    unfold wf_node, nd2. cbn.
    split_and!; auto using add_value_length, add_value_u32, add_value_nodup.
    discriminate. }
  assert (Henc : encodable (char nd1) (add_value (values nd1) v) (children nd1)).
  { apply (wf_node_encodable _ _ _ Hnd2); [lia|]. destruct Hwf1 as (_ & ? & _). lia. }
  destruct (write_node_spec n (char nd1) true (add_value (values nd1) v)
              (children nd1) (mkFile c1 p) Henc ltac:(lia)) as [p2 E].
  rewrite E. clear E. cbn [content].
  change (put c1 n _) with (store_node c1 n nd2).
  destruct (wf_update c1 n nd1 nd2 Hwf1 Hat1 Hnd2)
    as (Hwf2 & Hn2 & Hat2 & Hother).
  assert (Hkept : edges_kept c1 (store_node c1 n nd2)).
  { intros j ndj Hj. destruct (Z.eq_dec j n) as [->|Hne].
    - assert (ndj = nd1) as -> by congruence. exists nd2. auto.
    - exists ndj. rewrite Hother by assumption. auto. }
  exists (store_node c1 n nd2), p2, n, nd2.
  split_and!; try assumption; try reflexivity; try lia.
  - intros j ndj Hj.
    destruct (extends_edges_kept _ _ Hext j ndj Hj) as (nd' & Hj' & Hcs').
    destruct (Hkept j nd' Hj') as (nd'' & Hj'' & Hcs''). eauto.
  - eapply walk_kept; eassumption.
  - cbn. f_equal. unfold stored.
    destruct (walk (content f) 0 bs) as [n0|] eqn:Hwalk0.
    + rewrite (Hsame ltac:(eauto)) in *.
      assert (n0 = n) as -> by congruence. rewrite Hat1.
      destruct (is_terminal nd1) eqn:Hterm; [reflexivity|].
      destruct Hnd1 as (_ & _ & _ & _ & Hempty & _). auto.
    + destruct (Hnone eq_refl) as (nd & Hat & _ & Hvals). congruence.
Qed.

(** ** The ceiling of 65536 nodes *)

Lemma insert_loop_overflow (bs : list Z) :
  forall (f : File) (id : Z),
    wf_store (content f) -> 0 <= id < nodes (content f) ->
    Forall utf8_byte bs ->
    nodes (content f) + new_nodes (content f) id bs > 65536 ->
    exists c' p,
      insert_loop bs id f = (Raise StructError, mkFile c' p) /\
      wf_store c' /\ extends (content f) c' /\ nodes c' = 65536.
Proof.
  induction bs as [|b bs IH]; intros f id Hwf Hid Hbs Hroom.
  - cbn in Hroom. destruct Hwf as (_ & ? & _). lia.
  - apply Forall_cons in Hbs as [Hb Hbs].
    destruct (wf_node_at _ _ Hwf Hid) as (nd & Hat & Hnd).
    cbn [insert_loop new_nodes] in *. rewrite Hat in *.
    unfold bind.
    destruct (find_child (children nd) b) as [m|] eqn:Hfind.
    + destruct (find_or_create_found f id b m nd Hat Hfind) as [p1 E].
      rewrite E. clear E.
      destruct (wf_child_range _ _ _ _ _ Hwf Hat Hfind) as [Hm _].
      apply (IH (mkFile (content f) p1) m Hwf ltac:(cbn; lia) Hbs Hroom).
    + destruct (Z.eq_dec (nodes (content f)) 65536) as [Hfull|Hnot].
      * destruct (find_or_create_overflow f id b nd Hwf Hat Hfind Hb Hfull)
          as [p1 E].
        rewrite E. exists (content f), p1.
        split_and!; auto using extends_refl.
      * assert (Hlt : nodes (content f) < 65536)
          by (destruct Hwf as (_ & ? & _); lia).
        destruct (find_or_create_new f id b nd Hwf Hat Hfind Hb Hlt) as [p1 E].
        rewrite E. clear E.
        destruct (wf_add_child _ _ _ _ Hwf Hat Hfind Hb Hlt)
          as (Hwf1 & Hn1 & Hp1 & Hf1 & Hext1).
        set (c1 := add_child (content f) id b nd) in *.
        set (n0 := nodes (content f)) in *.
        assert (Hnew : new_nodes c1 n0 bs = Z.of_nat (length bs))
          by (eapply new_nodes_fresh; [exact Hf1|reflexivity]).
        cbn [length] in Hroom.
        destruct (IH (mkFile c1 p1) n0 Hwf1 ltac:(cbn; lia) Hbs
                    ltac:(cbn [content]; lia))
          as (c' & p & Hrun & Hwf' & Hext & Hn).
        cbn [content] in *.
        exists c', p. split_and!; try assumption.
        eapply extends_trans; eassumption.
Qed.

(** ** Frame: the reading methods *)

Lemma read_only_ret {A} (a : A) : read_only (ret a).
Proof. intros f. reflexivity. Qed.

Lemma read_only_raise {A} (e : exn) : read_only (@raise A e).
Proof. intros f. reflexivity. Qed.

Lemma read_only_lift {A} (r : result A) : read_only (lift r).
Proof. intros f. reflexivity. Qed.

Lemma read_only_bind {A B} (m : M A) (k : A -> M B) :
  read_only m -> (forall a, read_only (k a)) -> read_only (bind m k).
Proof.
  intros Hm Hk f. unfold bind. specialize (Hm f).
  destruct (m f) as [[a|e] f']; cbn in *; [|assumption].
  rewrite Hk. assumption.
Qed.

Lemma read_only_read_node (id : Z) : read_only (_read_node id).
Proof. intros f. destruct (read_node_spec id f) as [p ->]. reflexivity. Qed.

Lemma read_only_subscript {A} (r : option Node) (k : Node -> M A) :
  (forall nd, read_only (k nd)) -> read_only (subscript r k).
Proof. intros Hk. destruct r; [apply Hk | apply read_only_raise]. Qed.

Lemma read_only_descend (bs : list Z) : forall id, read_only (descend bs id).
Proof.
  induction bs as [|b bs IH]; intros id; cbn [descend].
  - apply read_only_ret.
  - apply read_only_bind; [apply read_only_read_node|].
    intros r. apply read_only_subscript. intros nd.
    destruct (find_child (children nd) b); [apply IH | apply read_only_ret].
Qed.

Lemma read_only_foldM {A B} (g : B -> A -> M B) (l : list A) :
  (forall b a, read_only (g b a)) -> forall b, read_only (foldM g l b).
Proof.
  intros Hg. induction l as [|a l IH]; intros b; cbn [foldM].
  - apply read_only_ret.
  - apply read_only_bind; [apply Hg | exact IH].
Qed.

Lemma read_only_dfs (depth : nat) :
  forall id path results, read_only (dfs depth id path results).
Proof.
  induction depth as [|depth IH]; intros id path results; cbn [dfs].
  - apply read_only_raise.
  - apply read_only_bind; [apply read_only_read_node|].
    intros r. apply read_only_subscript. intros nd.
    apply read_only_foldM. intros acc e. apply IH.
Qed.

Lemma read_only_lookup (w : str) : read_only (lookup w).
Proof.
  unfold lookup. apply read_only_bind; [apply read_only_lift|]. intros bs.
  apply read_only_bind; [apply read_only_descend|]. intros [n|].
  - apply read_only_bind; [apply read_only_read_node|].
    intros r. apply read_only_subscript. intros nd. apply read_only_ret.
  - apply read_only_ret.
Qed.

Lemma read_only_prefix_search (depth : nat) (w : str) :
  read_only (prefix_search depth w).
Proof.
  unfold prefix_search. apply read_only_bind; [apply read_only_lift|].
  intros bs. apply read_only_bind; [apply read_only_descend|]. intros [n|].
  - apply read_only_dfs.
  - apply read_only_ret.
Qed.

(** C9: [lookup] and [prefix_search] are read-only. For every file, key or
    prefix and recursion allowance, the bytes of the backing file (hence
    every node record and the file length) are the same after the call as
    before it, whether it returns or raises. *)
Theorem lookup_prefix_search_read_only (f : File) (w : str) (depth : nat) :
  content (snd (lookup w f)) = content f /\
  content (snd (prefix_search depth w f)) = content f.
Proof.
  split; [apply read_only_lookup | apply read_only_prefix_search].
Qed.

(** ** [_read_node] validates nothing *)

Lemma unpack_Is_total (n : nat) :
  forall bs, length bs = (4 * n)%nat ->
    exists vs, unpack_Is n bs = Ok vs /\ length vs = n.
Proof.
  induction n as [|n IH]; intros bs Hlen.
  - destruct bs; [|discriminate]. exists []. auto.
  - destruct bs as [|b0 [|b1 [|b2 [|b3 bs]]]]; cbn [length] in Hlen; try lia.
    destruct (IH bs ltac:(lia)) as (vs & Hvs & Hl).
    cbn [unpack_Is]. rewrite Hvs. cbn [rbind]. eexists. split; [reflexivity|].
    cbn [length]. lia.
Qed.

Lemma decode_child_total (data : list Z) (i : nat) :
  (36 + i * 3 + 3 <= length data)%nat -> exists e, decode_child data i = Ok e.
Proof.
  intros Hlen. unfold decode_child, getitem.
  destruct (lookup_lt_is_Some_2 data (36 + i * 3) ltac:(lia)) as [c ->].
  cbn [rbind].
  assert (Hs : length (slice data (36 + i * 3 + 1) (36 + i * 3 + 3)) = 2%nat)
    by (unfold slice; rewrite length_take, length_drop; lia).
  destruct (slice data _ _) as [|b0 [|b1 [|]]]; try discriminate Hs.
  cbn. eauto.
Qed.

Lemma mapM_total {A B} (g : A -> result B) (l : list A) :
  Forall (fun a => exists b, g a = Ok b) l ->
  exists bs, mapM g l = Ok bs /\ length bs = length l.
Proof.
  induction 1 as [|a l [b Hb] _ (bs & Hbs & Hl)]; cbn [mapM].
  - exists []. auto.
  - rewrite Hb. cbn [rbind]. rewrite Hbs. cbn [rbind].
    exists (b :: bs). cbn [length]. auto.
Qed.

(** Any 1024 bytes decode: the two counts are used as they are read. *)
Lemma decode_node_total (data : list Z) :
  length data = 1024%nat -> Forall byte data ->
  exists nd, decode_node data = Ok nd /\
    getitem data 2 = Ok (Z.of_nat (length (values nd))) /\
    getitem data 35 = Ok (Z.of_nat (length (children nd))).
Proof.
  intros Hlen Hbytes. unfold decode_node.
  assert (Hget : forall i, (i < 1024)%nat ->
            exists b, getitem data i = Ok b /\ 0 <= b < 256).
  { intros i Hi. unfold getitem.
    destruct (lookup_lt_is_Some_2 data i ltac:(lia)) as [b Hb]. rewrite Hb.
    exists b. split; [reflexivity|].
    rewrite Forall_lookup in Hbytes. exact (Hbytes i b Hb). }
  destruct (Hget 1%nat ltac:(lia)) as (b1 & -> & _).
  destruct (Hget 2%nat ltac:(lia)) as (nv & -> & Hnv).
  destruct (Hget 35%nat ltac:(lia)) as (nc & -> & Hnc).
  cbn [rbind].
  destruct (unpack_Is_total (Z.to_nat nv)
              (slice data 3 (3 + 4 * Z.to_nat nv))) as (vs & -> & Hvs).
  { unfold slice. rewrite length_take, length_drop. lia. }
  cbn [rbind].
  destruct (mapM_total (decode_child data) (seq 0 (Z.to_nat nc)))
    as (cs & -> & Hcs).
  { apply Forall_forall. intros i Hi%list_elem_of_In%in_seq.
    apply decode_child_total. lia. }
  cbn [rbind]. eexists. split; [reflexivity|]. cbn [values children].
  rewrite Hvs, Hcs, length_seq. split; f_equal; lia.
Qed.

Lemma forallb_bytes (l : list Z) : forallb is_byte l = true -> Forall byte l.
Proof.
  rewrite forallb_forall. intros H. apply Forall_forall.
  intros b Hb%list_elem_of_In. specialize (H b Hb).
  unfold is_byte in H. apply andb_true_iff in H. unfold byte. lia.
Qed.

(** C2, amended: [_read_node] reports nothing as corrupt. With no byte at
    the offset it returns [None]; with a full record of [R] bytes it always
    returns a node, holding as many values and children as the two count
    bytes say, whatever they say. *)
Theorem read_node_unchecked (f : File) (id : Z) :
  0 <= id -> Forall byte (content f) ->
  ((length (content f) <= offset_of id)%nat ->
   fst (_read_node id f) = Ok None) /\
  ((offset_of id + 1024 <= length (content f))%nat ->
   exists nd, fst (_read_node id f) = Ok (Some nd) /\
     getitem (record (content f) id) 2 = Ok (Z.of_nat (length (values nd))) /\
     getitem (record (content f) id) 35
       = Ok (Z.of_nat (length (children nd)))).
Proof.
  intros Hid Hbytes. destruct (read_node_spec id f) as [p ->]. cbn [fst].
  unfold read_pure. replace (id <? 0) with false by lia. split.
  - intros Hend. unfold record. rewrite drop_ge by assumption.
    rewrite take_nil. reflexivity.
  - intros Hfull.
    assert (Hlen : length (record (content f) id) = 1024%nat).
    { unfold record. rewrite node_size_nat, length_take, length_drop. lia. }
    assert (Hb : Forall byte (record (content f) id)).
    { unfold record. apply Forall_take, Forall_drop, Hbytes. }
    destruct (decode_node_total _ Hlen Hb) as (nd & Hdec & H2 & H35).
    exists nd. rewrite H2, H35.
    destruct (record (content f) id); [discriminate Hlen|].
    rewrite Hdec. auto.
Qed.

Lemma read_node_unchecked_witness :
  exists nd, fst (_read_node 2 scenario) = Ok (Some nd) /\
    getitem (record (content scenario) 2) 2 = Ok (Z.of_nat (length (values nd))) /\
    getitem (record (content scenario) 2) 35
      = Ok (Z.of_nat (length (children nd))).
Proof.
  apply (read_node_unchecked scenario 2).
  - lia.
  - apply forallb_bytes. vm_compute. reflexivity.
  - vm_compute. lia.
Defined.

(** C2 as stated fails: a record whose value count is 9, one whose child
    count is 65 and a file cut after 36 bytes are all decoded, and an empty
    file gives [None]; none raises. *)
Lemma read_node_accepts_bad_counts :
  fst (_read_node 0 (mkFile (record_with_counts 9 0) 0))
    = Ok (Some (mkNode [0] false (replicate 9 0) [])) /\
  fst (_read_node 0 (mkFile (record_with_counts 0 65) 0))
    = Ok (Some (mkNode [0] false [] (replicate 65 (0, 0)))) /\
  fst (_read_node 0 (mkFile (replicate 36 0) 0))
    = Ok (Some (mkNode [0] false [] [])) /\
  fst (_read_node 0 (mkFile [] 0)) = Ok None.
Proof. vm_compute. auto. Qed.

(** C6: [lookup] descends from the root one byte at a time and changes no
    byte of the file. When a byte of the key has no edge at the node the
    bytes before it lead to, the result is the empty list; when the path of
    the whole key exists, the result is the values of its last node if that
    node is terminal and the empty list otherwise. *)
Theorem lookup_follows_path (f : File) (w : str) (bs : list Z) :
  encode_utf8 w = Ok bs ->
  content (snd (lookup w f)) = content f /\
  (forall pre b rest n nd,
     bs = pre ++ b :: rest ->
     walk (content f) 0 pre = Some n ->
     node_at (content f) n = Some nd ->
     find_child (children nd) b = None ->
     fst (lookup w f) = Ok []) /\
  (forall n nd,
     walk (content f) 0 bs = Some n ->
     node_at (content f) n = Some nd ->
     fst (lookup w f) = Ok (if is_terminal nd then values nd else [])).
Proof.
  intros Hw. split; [apply read_only_lookup|]. split.
  - intros pre b rest n nd -> Hwalk Hat Hfind.
    unfold lookup, bind, lift. rewrite Hw.
    destruct (descend_missing pre b rest f 0 n nd Hwalk Hat Hfind) as [p ->].
    reflexivity.
  - intros n nd Hwalk Hat.
    unfold lookup, bind, lift. rewrite Hw.
    destruct (descend_walk bs f 0 n Hwalk) as [p ->].
    run_read. rewrite (node_at_read _ _ _ Hat). reflexivity.
Qed.

Lemma lookup_follows_path_witness :
  fst (lookup s_ca scenario) = Ok [] /\ fst (lookup s_cat scenario) = Ok [1]
  /\ fst (lookup s_do scenario) = Ok [].
Proof.
  split; [|split].
  - destruct (lookup_follows_path scenario s_ca [99; 97] eq_refl)
      as (_ & _ & H).
    apply (H 2 (mkNode [97] false [] [(116, 3); (114, 4)]));
      vm_compute; reflexivity.
  - destruct (lookup_follows_path scenario s_cat [99; 97; 116] eq_refl)
      as (_ & _ & H).
    apply (H 3 (mkNode [116] true [1] [])); vm_compute; reflexivity.
  - destruct (lookup_follows_path scenario s_do [100; 111] eq_refl)
      as (_ & _ & H).
    apply (H 6 (mkNode [111] false [] [(103, 7)])); vm_compute; reflexivity.
Defined.

(** ** Values of one key *)

Lemma stored_node (c : list Z) (bs : list Z) (n : Z) (nd : Node) :
  walk c 0 bs = Some n -> node_at c n = Some nd -> is_terminal nd = true ->
  stored c bs = values nd.
Proof. intros Hw Hat Ht. unfold stored. rewrite Hw, Hat, Ht. reflexivity. Qed.

Lemma stored_wf (c : list Z) (bs : list Z) :
  wf_store c -> NoDup (stored c bs) /\ (length (stored c bs) <= 8)%nat.
Proof.
  intros Hwf. unfold stored.
  destruct (walk c 0 bs) as [n|] eqn:Hwalk;
    [|split; [apply NoDup_nil_2 | cbn; lia]].
  pose proof (walk_range _ _ Hwf 0 n (root_range _ Hwf) Hwalk) as Hn.
  destruct (wf_node_at _ _ Hwf Hn) as (nd & -> & Hnd).
  destruct Hnd as (_ & Hlen & _ & Hndv & _).
  destruct (is_terminal nd); [auto | split; [apply NoDup_nil_2 | cbn; lia]].
Qed.

(** [insert] followed by [lookup] of the same key. *)
Lemma insert_then_lookup (f : File) (w : str) (v : Z) (bs : list Z) :
  wf_store (content f) -> encode_utf8 w = Ok bs -> u32 v ->
  nodes (content f) + new_nodes (content f) 0 bs <= 65536 ->
  exists f',
    insert w v f = (Ok tt, f') /\
    wf_store (content f') /\
    nodes (content f') + new_nodes (content f') 0 bs <= 65536 /\
    stored (content f') bs = add_value (stored (content f) bs) v /\
    fst (lookup w f') = Ok (add_value (stored (content f) bs) v).
Proof.
  intros Hwf Hw Hv Hroom.
  destruct (insert_ok f w v bs Hwf Hw Hv Hroom)
    as (c' & p & n & nd & Hrun & Hwf' & Hn & _ & Hwalk & Hat & Hterm & Hvals).
  exists (mkFile c' p). cbn [content].
  assert (Hst : stored c' bs = add_value (stored (content f) bs) v)
    by (rewrite <- Hvals; eapply stored_node; eassumption).
  split_and!; try assumption.
  - rewrite new_nodes_walk by eauto. destruct Hwf' as (_ & ? & _). lia.
  - destruct (lookup_wf (mkFile c' p) w bs Hwf' Hw) as [p' ->].
    cbn [fst content]. rewrite Hst. reflexivity.
Qed.

Lemma add_value_idem (vs : list Z) (v : Z) :
  add_value (add_value vs v) v = add_value vs v.
Proof.
  unfold add_value.
  destruct (existsb (Z.eqb v) vs) eqn:Hex; [rewrite Hex; reflexivity|].
  destruct (Z.of_nat (length vs) <? MAX_VALUES) eqn:Hlt.
  - rewrite existsb_app. cbn. rewrite Z.eqb_refl, orb_true_r. reflexivity.
  - rewrite Hex, Hlt. reflexivity.
Qed.






(** C8: inserting the same value twice gives the [lookup] result of
    inserting it once. *)
Theorem insert_idempotent (f : File) (w : str) (bs : list Z) (v : Z) :
  wf_store (content f) -> encode_utf8 w = Ok bs -> u32 v ->
  nodes (content f) + new_nodes (content f) 0 bs <= 65536 ->
  exists f1 f2,
    insert w v f = (Ok tt, f1) /\ insert w v f1 = (Ok tt, f2) /\
    fst (lookup w f2) = fst (lookup w f1).
Proof.
  intros Hwf Hw Hv Hroom.
  destruct (insert_then_lookup f w v bs Hwf Hw Hv Hroom)
    as (f1 & Hrun1 & Hwf1 & Hroom1 & Hst1 & Hlook1).
  destruct (insert_then_lookup f1 w v bs Hwf1 Hw Hv Hroom1)
    as (f2 & Hrun2 & Hwf2 & _ & _ & Hlook2).
  exists f1, f2. split_and!; try assumption.
  rewrite Hlook1, Hlook2, Hst1. f_equal. apply add_value_idem.
Qed.







(** ** The initial store *)

Lemma wf_store0 : wf_store (content store0).
Proof.
  assert (E : content store0 = store_node [] 0 (fresh_node 0))
    by (vm_compute; reflexivity).
  rewrite E.
  assert (Henc : encodable (char (fresh_node 0)) (values (fresh_node 0))
                   (children (fresh_node 0)))
    by (apply (wf_node_encodable _ _ _ (wf_node_fresh 0 0)); lia).
  assert (H0 : nodes [] = 0) by reflexivity.
  destruct (nodes_store_node [] 0 (fresh_node 0) eq_refl
              ltac:(rewrite H0; lia) Henc) as [Hal Hn].
  rewrite H0 in Hn.
  split_and!; try assumption; try lia.
  rewrite Hn. intros id Hid. assert (id = 0) as -> by lia.
  exists (fresh_node 0). split; [|apply (wf_node_fresh 0 0)].
  apply store_node_same; [rewrite offset_of_nat; cbn; lia | lia | exact Henc].
Qed.


Lemma insert_idempotent_witness :
  exists f1 f2,
    insert s_cat 1 store0 = (Ok tt, f1) /\ insert s_cat 1 f1 = (Ok tt, f2) /\
    fst (lookup s_cat f2) = fst (lookup s_cat f1).
Proof.
  apply (insert_idempotent store0 s_cat [99; 97; 116] 1).
  - exact wf_store0.
  - reflexivity.
  - unfold u32. lia.
  - vm_compute. discriminate.
Defined.



(** ** C7: the ceiling of 65536 nodes *)

Lemma find_or_create_stores_id (f f' : File) (pid b m : Z) :
  wf_store (content f) -> 0 <= pid < nodes (content f) -> utf8_byte b ->
  _find_or_create_child pid b f = (Ok m, f') ->
  exists nd', node_at (content f') pid = Some nd' /\
              find_child (children nd') b = Some m /\ 0 <= m < 65536.
Proof.
  intros Hwf Hpid Hb Hrun.
  destruct (wf_node_at _ _ Hwf Hpid) as (nd & Hat & Hnd).
  destruct (find_child (children nd) b) as [k|] eqn:Hfind.
  - destruct (find_or_create_found f pid b k nd Hat Hfind) as [p E].
    rewrite E in Hrun. injection Hrun as <- <-. cbn [content].
    exists nd. split_and!; try assumption;
      destruct (wf_child_range _ _ _ _ _ Hwf Hat Hfind);
      destruct Hwf as (_ & ? & _); lia.
  - destruct (Z.eq_dec (nodes (content f)) 65536) as [Hfull|Hnot].
    + destruct (find_or_create_overflow f pid b nd Hwf Hat Hfind Hb Hfull)
        as [p E].
      rewrite E in Hrun. discriminate Hrun.
    + assert (Hlt : nodes (content f) < 65536)
        by (destruct Hwf as (_ & ? & _); lia).
      destruct (find_or_create_new f pid b nd Hwf Hat Hfind Hb Hlt) as [p E].
      rewrite E in Hrun. injection Hrun as <- <-. cbn [content].
      destruct (wf_add_child _ _ _ _ Hwf Hat Hfind Hb Hlt)
        as (_ & _ & Hp & _ & _).
      exists (with_child nd b (nodes (content f))).
      split_and!; try assumption; try lia.
      cbn. rewrite find_child_app, Hfind. cbn. rewrite Z.eqb_refl. reflexivity.
Qed.

(** C7: an [insert] that needs more nodes than the 65536 identifiers allow
    fails with the exception [struct.pack_into] raises for the identifier
    that does not fit 16 bits; the store stays well formed and keeps every
    node, value and edge it had. And whenever [_find_or_create_child]
    returns an identifier, that identifier is below 65536 and is the one the
    parent's child table holds for the byte: no entry is stored wrapped or
    cut. *)
Theorem node_id_overflow_fatal (f : File) (w : str) (v : Z) (bs : list Z) :
  wf_store (content f) -> encode_utf8 w = Ok bs ->
  nodes (content f) + new_nodes (content f) 0 bs > 65536 ->
  (exists f', insert w v f = (Raise StructError, f') /\
              wf_store (content f') /\ extends (content f) (content f')) /\
  (forall pid b m f',
     0 <= pid < nodes (content f) -> utf8_byte b ->
     _find_or_create_child pid b f = (Ok m, f') ->
     exists nd', node_at (content f') pid = Some nd' /\
                 find_child (children nd') b = Some m /\ 0 <= m < 65536).
Proof.
  intros Hwf Hw Hover. split.
  - pose proof (encode_utf8_bytes _ _ Hw) as Hbs.
    destruct (insert_loop_overflow bs f 0 Hwf (root_range _ Hwf) Hbs Hover)
      as (c' & p & Hrun & Hwf' & Hext & _).
    exists (mkFile c' p). unfold insert, bind, lift. rewrite Hw, Hrun. auto.
  - intros pid b m f' Hpid Hb Hrun.
    eapply find_or_create_stores_id; eassumption.
Qed.

Lemma node_id_overflow_fatal_witness :
  exists f', insert long_key 1 store0 = (Raise StructError, f') /\
             wf_store (content f') /\ extends (content store0) (content f').
Proof.
  apply (node_id_overflow_fatal store0 long_key 1 long_key).
  - exact wf_store0.
  - apply encode_utf8_ascii, Forall_replicate. unfold ascii. lia.
  - assert (Hroot : node_at (content store0) 0 = Some (fresh_node 0))
      by (vm_compute; reflexivity).
    rewrite (new_nodes_fresh _ _ _ long_key Hroot eq_refl).
    unfold long_key. rewrite length_replicate, Z2Nat.id by lia.
    assert (Hn : nodes (content store0) = 1) by (vm_compute; reflexivity).
    rewrite Hn. lia.
Defined.

(** ** Prefix enumeration *)

Lemma walk_app (c : list Z) (s t : list Z) :
  forall id m, walk c id (s ++ t) = Some m ->
    exists n, walk c id s = Some n /\ walk c n t = Some m.
Proof.
  induction s as [|b s IH]; intros id m; cbn [app walk]; [eauto|].
  destruct (node_at c id) as [nd|]; [|discriminate].
  destruct (find_child (children nd) b) as [k|]; [apply IH | discriminate].
Qed.

Lemma concat_singletons (w : str) : concat (map (fun ch => [ch]) w) = w.
Proof. induction w as [|ch w IH]; cbn; [reflexivity | rewrite IH; reflexivity]. Qed.

Lemma foldM_dfs_collects (d : nat) (path : list str) (l : list (Z * Z)) :
  dfs_collects d ->
  forall acc f res f',
    foldM (fun results e => dfs d (snd e) (path ++ [[fst e]]) results) l acc f
      = (Ok res, f') ->
    (forall x, x ∈ acc -> x ∈ res) /\
    (forall e s m nd,
       e ∈ l -> walk (content f) (snd e) s = Some m ->
       node_at (content f) m = Some nd -> is_terminal nd = true ->
       (concat path ++ fst e :: s, values nd) ∈ res).
Proof.
  intros Hd. induction l as [|e l IH]; intros acc f res f'; cbn [foldM].
  - intros [= <- <-]. split; [auto|]. intros e s m nd He.
    apply elem_of_nil in He as [].
  - unfold bind.
    destruct (dfs d (snd e) (path ++ [[fst e]]) acc f) as [[r1|x] f1] eqn:E1;
      [|discriminate].
    pose proof (read_only_dfs d (snd e) (path ++ [[fst e]]) acc f) as Hc.
    rewrite E1 in Hc. cbn [snd] in Hc.
    destruct (Hd _ _ _ _ _ _ E1) as [Hmono1 Hsub1].
    intros Hrest. destruct (IH r1 f1 res f' Hrest) as [Hmono Hsub].
    split; [auto|].
    intros e' s m nd He' Hwalk Hat Hterm.
    apply elem_of_cons in He' as [->|He'].
    + apply Hmono.
      specialize (Hsub1 s m nd Hwalk Hat Hterm).
      rewrite concat_app in Hsub1. cbn in Hsub1.
      rewrite <- app_assoc in Hsub1. exact Hsub1.
    + rewrite <- Hc in Hwalk, Hat. eauto.
Qed.

Lemma dfs_collects_all (d : nat) : dfs_collects d.
Proof.
  induction d as [|d IH]; intros id path acc f res f'; cbn [dfs];
    [discriminate|].
  unfold bind. run_read.
  destruct (read_pure (content f) id) as [[nd0|]|] eqn:Hread;
    [|discriminate..].
  cbn [subscript]. intros Hfold.
  destruct (foldM_dfs_collects d path (children nd0) IH _ _ _ _ Hfold)
    as [Hmono Hsub].
  cbn [content] in Hsub.
  assert (Hat0 : node_at (content f) id = Some nd0)
    by (unfold node_at; rewrite Hread; reflexivity).
  split.
  - intros x Hx. apply Hmono.
    destruct (is_terminal nd0); [apply elem_of_app; auto | exact Hx].
  - intros s m nd Hwalk Hat Hterm. destruct s as [|b s]; cbn [walk] in Hwalk.
    + injection Hwalk as <-. rewrite Hat0 in Hat. injection Hat as ->.
      apply Hmono. rewrite Hterm, app_nil_r.
      apply elem_of_app. right. apply list_elem_of_here.
    + rewrite Hat0 in Hwalk.
      destruct (find_child (children nd0) b) as [k|] eqn:Hfind;
        [|discriminate].
      apply (Hsub (b, k) s m nd); auto using find_child_Some.
Qed.

(** [dfs] returns when the store is well formed and no path below the node
    is as long as the recursion allowance. *)
Lemma dfs_total (d : nat) :
  forall id path acc f,
    wf_store (content f) -> 0 <= id < nodes (content f) ->
    (forall t m, walk (content f) id t = Some m -> (length t < d)%nat) ->
    exists res p, dfs d id path acc f = (Ok res, mkFile (content f) p).
Proof.
  induction d as [|d IH]; intros id path acc f Hwf Hid Hshort.
  - specialize (Hshort [] id eq_refl). cbn in Hshort. lia.
  - destruct (wf_node_at _ _ Hwf Hid) as (nd & Hat & Hnd).
    cbn [dfs]. unfold bind. run_read.
    rewrite (node_at_read _ _ _ Hat). cbn [subscript].
    set (acc0 := if is_terminal nd then acc ++ [(concat path, values nd)]
                 else acc).
    clearbody acc0.
    assert (Hall : Forall (fun e => find_child (children nd) (fst e)
                                    = Some (snd e)) (children nd)).
    { destruct Hnd as (_ & _ & _ & _ & _ & Hnodup & _).
      apply Forall_forall. intros [b k] He. cbn.
      apply find_child_elem; assumption. }
    revert Hall. generalize (children nd) at 2 3. intros l.
    revert acc0 p. induction l as [|e l IHl]; intros acc0 p Hall; cbn [foldM].
    + eexists _, _. reflexivity.
    + apply Forall_cons in Hall as [He Hall]. unfold bind.
      destruct (wf_child_range _ _ _ _ _ Hwf Hat He) as [Hk _].
      destruct (IH (snd e) (path ++ [[fst e]]) acc0 (mkFile (content f) p)
                  Hwf ltac:(cbn; lia)) as (r1 & p1 & E1).
      { cbn [content]. intros t m Ht.
        specialize (Hshort (fst e :: t) m). cbn [walk length] in Hshort.
        rewrite Hat, He in Hshort. specialize (Hshort Ht). lia. }
      rewrite E1. apply IHl, Hall.
Qed.

(** In a well-formed store a child has a larger identifier than its
    parent, so a path of [length t] edges ends that much further on. *)
Lemma walk_length (c : list Z) (t : list Z) :
  wf_store c ->
  forall id m, walk c id t = Some m -> id + Z.of_nat (length t) <= m.
Proof.
  intros Hwf. induction t as [|b t IH]; intros id m; cbn [walk length].
  - intros [= ->]. lia.
  - destruct (node_at c id) as [nd|] eqn:Hat; [|discriminate].
    destruct (find_child (children nd) b) as [k|] eqn:Hfind; [|discriminate].
    intros Hwalk. specialize (IH k m Hwalk).
    destruct (wf_child_range _ _ _ _ _ Hwf Hat Hfind). lia.
Qed.

Lemma walk_app_inv (c : list Z) (s t : list Z) :
  forall id n m, walk c id s = Some n -> walk c n t = Some m ->
    walk c id (s ++ t) = Some m.
Proof.
  induction s as [|b s IH]; intros id n m; cbn [app walk].
  - intros [= ->]. auto.
  - destruct (node_at c id) as [nd|]; [|discriminate].
    destruct (find_child (children nd) b) as [k|]; [apply IH | discriminate].
Qed.

(** X1: prefix containment, as far as it holds. Let the key [p ++ s] be
    stored: the bytes of [p] followed by the bytes of [s] lead to a terminal
    node. In a well-formed store where no path below the prefix is as long
    as the recursion allowance, [prefix_search] of [p] returns, and among
    its results is an entry with the values of that node, the ones [lookup]
    of the key reports. The entry's key is [p] followed by one character per
    byte of [s]: it is the key itself when [s] has one-byte characters
    only. *)
Theorem prefix_search_contains (f : File) (p s : str) (bp bs : list Z)
    (depth : nat) (n : Z) (nd : Node) :
  wf_store (content f) ->
  encode_utf8 p = Ok bp -> encode_utf8 s = Ok bs ->
  walk (content f) 0 (bp ++ bs) = Some n ->
  node_at (content f) n = Some nd -> is_terminal nd = true ->
  (forall t m, walk (content f) 0 (bp ++ t) = Some m -> (length t < depth)%nat) ->
  exists results,
    fst (prefix_search depth p f) = Ok results /\
    (p ++ bs, values nd) ∈ results /\
    fst (lookup (p ++ s) f) = Ok (values nd) /\
    (Forall ascii s -> p ++ bs = p ++ s).
Proof.
  intros Hwf Hp Hs Hwalk Hat Hterm Hshort.
  destruct (walk_app _ _ _ _ _ Hwalk) as (k & Hwp & Hws).
  pose proof (walk_range _ _ Hwf 0 k (root_range _ Hwf) Hwp) as Hk.
  unfold prefix_search, bind, lift. rewrite Hp.
  destruct (descend_walk bp f 0 k Hwp) as [p1 E1]. rewrite E1. clear E1.
  destruct (dfs_total depth k (map (fun ch => [ch]) p) []
              (mkFile (content f) p1) Hwf Hk) as (res & p2 & E2).
  { cbn [content]. intros t m Ht. apply (Hshort t m).
    eapply walk_app_inv; eassumption. }
  rewrite E2. exists res. split; [reflexivity|]. split; [|split].
  - destruct (dfs_collects_all depth _ _ _ _ _ _ E2) as [_ Hsub].
    specialize (Hsub bs n nd Hws Hat Hterm).
    rewrite concat_singletons in Hsub. exact Hsub.
  - destruct (lookup_wf f (p ++ s) (bp ++ bs) Hwf (encode_utf8_app _ _ _ _ Hp Hs))
      as [p3 ->].
    cbn [fst]. rewrite (stored_node _ _ _ _ Hwalk Hat Hterm). reflexivity.
  - intros Hascii. rewrite (encode_utf8_ascii s Hascii) in Hs.
    injection Hs as ->. reflexivity.
Qed.

(** ** The invariant holds in every reachable store *)

Lemma pack_Is_inv (vs : list Z) :
  match pack_Is vs with
  | Ok _ => Forall u32 vs
  | Raise e => e = StructError
  end.
Proof.
  induction vs as [|v vs IH]; cbn [pack_Is]; [constructor|].
  unfold pack_I.
  destruct ((0 <=? v) && (v <? 4294967296)) eqn:Hv; cbn [rbind];
    [|reflexivity].
  destruct (pack_Is vs); cbn [rbind]; [|exact IH].
  constructor; [|exact IH]. apply andb_true_iff in Hv. unfold u32. lia.
Qed.

(** A value that does not fit 32 bits stops [_write_node] before the file
    is touched. *)
Lemma write_node_bad_value (id : Z) (ch : list Z) (t : bool) (vs : list Z)
    (cs : list (Z * Z)) (e : exn) (f : File) :
  length ch = 1%nat -> (length vs <= 8)%nat -> pack_Is vs = Raise e ->
  _write_node id ch t vs cs f = (Raise e, f).
Proof.
  intros Hch Hvs Hp. unfold _write_node, bind, lift, encode_node.
  rewrite node_size_nat, drop_replicate.
  change (ch ++ replicate (1024 - 1) 0) with (zeros_after ch (1024 - 1)).
  rewrite setitem_zeros_after by (try (destruct t; reflexivity); len).
  cbn [rbind].
  rewrite setitem_zeros_after
    by (try (apply is_byte_true; unfold byte; lia); len).
  cbn [rbind]. rewrite Hp. reflexivity.
Qed.

(** Whatever its arguments and however it ends, [insert] leaves a
    well-formed store well formed. *)
Lemma insert_keeps_wf (f : File) (w : str) (v : Z) :
  wf_store (content f) -> wf_store (content (snd (insert w v f))).
Proof.
  intros Hwf. unfold insert, bind, lift.
  destruct (encode_utf8 w) as [bs|] eqn:Hw; [|exact Hwf].
  pose proof (encode_utf8_bytes _ _ Hw) as Hbs.
  destruct (Z_le_gt_dec (nodes (content f) + new_nodes (content f) 0 bs) 65536)
    as [Hroom|Hover].
  - destruct (insert_loop_ok bs f 0 Hwf (root_range _ Hwf) Hbs Hroom)
      as (c1 & n & p1 & Hrun & Hwf1 & _ & _ & Hwalk1 & _ & _).
    rewrite Hrun. clear Hrun.
    pose proof (walk_range _ _ Hwf1 0 n (root_range _ Hwf1) Hwalk1) as Hn.
    destruct (wf_node_at _ _ Hwf1 Hn) as (nd1 & Hat1 & Hnd1).
    run_read. rewrite (node_at_read _ _ _ Hat1). cbn [subscript].
    pose proof Hnd1 as (Hch & Hlen & Hu32 & Hndv & Hterm & Hnd & Hcs).
    pose proof (pack_Is_inv (add_value (values nd1) v)) as Hp.
    destruct (pack_Is (add_value (values nd1) v)) as [packed|e] eqn:Hpack.
    + set (nd2 := mkNode (char nd1) true (add_value (values nd1) v)
                         (children nd1)).
      assert (Hnd2 : wf_node (nodes c1) n nd2).
      { unfold wf_node, nd2. cbn.
        split_and!; auto using add_value_length, add_value_nodup.
        discriminate. }
      assert (Henc : encodable (char nd1) (add_value (values nd1) v)
                       (children nd1)).
      { apply (wf_node_encodable _ _ _ Hnd2); [lia|].
        destruct Hwf1 as (_ & ? & _). lia. }
      destruct (write_node_spec n (char nd1) true (add_value (values nd1) v)
                  (children nd1) (mkFile c1 p) Henc ltac:(lia)) as [p2 E].
      rewrite E. cbn [snd content].
      change (put c1 n _) with (store_node c1 n nd2).
      apply (wf_update c1 n nd1 nd2 Hwf1 Hat1 Hnd2).
    + rewrite (write_node_bad_value _ _ _ _ _ e)
        by auto using add_value_length.
      exact Hwf1.
  - destruct (insert_loop_overflow bs f 0 Hwf (root_range _ Hwf) Hbs Hover)
      as (c' & p & Hrun & Hwf' & _ & _).
    rewrite Hrun. exact Hwf'.
Qed.

(** X2: the invariants of the data model hold in every store a program can
    reach: the file is a whole number of records, between 1 and 65536, and
    every record decodes to a node with distinct child bytes, with child
    identifiers above its own and below the number of nodes, with at most
    eight distinct values, and with no value unless it is terminal. *)
Theorem reachable_wf (f : File) : reachable f -> wf_store (content f).
Proof.
  induction 1 as [|f w v _ IH|f w _ IH|f d w _ IH].
  - exact wf_store0.
  - apply insert_keeps_wf, IH.
  - rewrite read_only_lookup. exact IH.
  - rewrite read_only_prefix_search. exact IH.
Qed.

Lemma scenario_steps :
  scenario
  = snd (insert s_dog 3 (snd (insert s_car 2 (snd (insert s_cat 1 store0))))).
Proof. vm_compute. reflexivity. Qed.

Lemma wf_scenario : wf_store (content scenario).
Proof.
  rewrite scenario_steps. do 3 apply insert_keeps_wf. exact wf_store0.
Qed.

Lemma prefix_search_contains_witness :
  exists results,
    fst (prefix_search 1000 s_ca scenario) = Ok results /\
    (s_ca ++ [116], [1]) ∈ results /\
    fst (lookup (s_ca ++ [116]) scenario) = Ok [1] /\
    (Forall ascii [116] -> s_ca ++ [116] = s_ca ++ [116]).
Proof.
  apply (prefix_search_contains scenario s_ca [116] s_ca [116] 1000 3
           (mkNode [116] true [1] [])).
  - exact wf_scenario.
  - reflexivity.
  - reflexivity.
  - vm_compute. reflexivity.
  - vm_compute. reflexivity.
  - reflexivity.
  - intros t m Hwalk.
    pose proof (walk_length _ _ wf_scenario _ _ Hwalk) as Hlen.
    pose proof (walk_range _ _ wf_scenario 0 m
                  (root_range _ wf_scenario) Hwalk) as Hm.
    assert (Hn : nodes (content scenario) = 8) by (vm_compute; reflexivity).
    rewrite length_app in Hlen. lia.
Defined.

Lemma reachable_wf_witness : wf_store (content scenario).
Proof.
  apply (reachable_wf scenario). rewrite scenario_steps.
  do 3 apply reachable_insert. apply reachable_new.
Defined.

(** X3: the record codec round-trips. A node whose fields fit the format
    (a one-byte label, at most 8 values of 32 bits, at most 255 children
    with a byte and a 16-bit identifier each) is written without an
    exception as one record of 1024 bytes, and [_read_node] of the same
    identifier returns it unchanged. *)
Theorem write_then_read (f : File) (id : Z) (nd : Node) :
  encodable (char nd) (values nd) (children nd) -> 0 <= id ->
  (offset_of id <= length (content f))%nat ->
  exists f',
    _write_node id (char nd) (is_terminal nd) (values nd) (children nd) f
      = (Ok tt, f') /\
    fst (_read_node id f') = Ok (Some nd) /\
    length (record (content f') id) = 1024%nat.
Proof.
  intros Henc Hid Hoff.
  destruct (write_node_spec id _ (is_terminal nd) _ _ f Henc Hid) as [p E].
  eexists. split; [exact E|].
  change (put (content f) id _) with (store_node (content f) id nd).
  split.
  - destruct (read_node_spec id (mkFile (store_node (content f) id nd) p))
      as [p' ->].
    cbn [fst content]. apply node_at_read, store_node_same; assumption.
  - cbn [content]. unfold store_node.
    rewrite record_put_same by auto using length_layout.
    apply length_layout, Henc.
Qed.

Lemma write_then_read_witness :
  exists f',
    _write_node 1 [97] true [5; 6] [(98, 2)] store0 = (Ok tt, f') /\
    fst (_read_node 1 f') = Ok (Some (mkNode [97] true [5; 6] [(98, 2)])) /\
    length (record (content f') 1) = 1024%nat.
Proof.
  apply (write_then_read store0 1 (mkNode [97] true [5; 6] [(98, 2)])).
  - unfold encodable, u32, child_ok, byte, u16. cbn.
    split_and!; try lia.
    + repeat (apply Forall_cons_2; [lia|]). apply Forall_nil_2.
    + repeat (apply Forall_cons_2; [cbn; lia|]). apply Forall_nil_2.
  - lia.
  - vm_compute. lia.
Defined.

(** X4: a new edge is always stored, whatever the size of the table. In a
    well-formed store with fewer than 65536 nodes, [_find_or_create_child]
    for a byte the parent has no edge for returns the next free identifier,
    and afterwards the parent's table is the old one with the new entry
    after it, one entry longer, and the new node is an empty record labelled
    with the byte. No branch compares the size with [MAX_CHILDREN]. *)
Theorem new_edge_always_added (f : File) (pid b : Z) (nd : Node) :
  wf_store (content f) -> node_at (content f) pid = Some nd ->
  find_child (children nd) b = None -> utf8_byte b ->
  nodes (content f) < 65536 ->
  exists f' nd',
    _find_or_create_child pid b f = (Ok (nodes (content f)), f') /\
    node_at (content f') pid = Some nd' /\
    children nd' = children nd ++ [(b, nodes (content f))] /\
    length (children nd') = S (length (children nd)) /\
    node_at (content f') (nodes (content f)) = Some (fresh_node b) /\
    wf_store (content f').
Proof.
  intros Hwf Hat Hfind Hb Hlt.
  destruct (find_or_create_new f pid b nd Hwf Hat Hfind Hb Hlt) as [p E].
  destruct (wf_add_child _ _ _ _ Hwf Hat Hfind Hb Hlt)
    as (Hwf' & _ & Hp & Hf & _).
  eexists _, (with_child nd b (nodes (content f))).
  split; [exact E|]. cbn [content children with_child].
  split_and!; try assumption; try reflexivity.
  rewrite length_app. cbn [length]. lia.
Qed.

Lemma new_edge_always_added_witness :
  exists f' nd',
    _find_or_create_child 0 97 store0 = (Ok (nodes (content store0)), f') /\
    node_at (content f') 0 = Some nd' /\
    children nd'
      = children (fresh_node 0) ++ [(97, nodes (content store0))] /\
    length (children nd') = S (length (children (fresh_node 0))) /\
    node_at (content f') (nodes (content store0)) = Some (fresh_node 97) /\
    wf_store (content f').
Proof.
  apply (new_edge_always_added store0 0 97 (fresh_node 0)).
  - exact wf_store0.
  - vm_compute. reflexivity.
  - reflexivity.
  - unfold utf8_byte. lia.
  - vm_compute. reflexivity.
Defined.

(** ** Where the code departs from the specification *)

(** C3: the child table is not capped. After 65 one-byte keys the root
    holds 65 edges, more than [MAX_CHILDREN], and the 65th key is found. *)
Theorem child_table_exceeds_cap :
  fst (_read_node 0 crowded) = Ok (Some crowded_root) /\
  length (children crowded_root) = 65%nat /\
  Z.of_nat (length (children crowded_root)) > MAX_CHILDREN /\
  fst (lookup [112] crowded) = Ok [1].
Proof. split_and!; vm_compute; reflexivity. Qed.

(** C1: the keys [prefix_search] returns are rebuilt with [chr] from single
    bytes. After [insert("é", 1)] the key is stored under the bytes C3 A9
    and [lookup("é")] finds it, but [prefix_search("")] returns the
    two-character text "Ã©" in its place. *)
Theorem prefix_search_mangles_multibyte :
  encode_utf8 s_e_acute = Ok [195; 169] /\
  fst (lookup s_e_acute accented) = Ok [1] /\
  fst (prefix_search 1000 [] accented) = Ok [([195; 169], [1])] /\
  [195; 169] <> s_e_acute.
Proof. vm_compute. split_and!; try reflexivity. discriminate. Qed.

(** ** The end-to-end scenario *)

(** The scenario of the specification. After ("cat", 1), ("car", 2) and
    ("dog", 3) on a fresh store: "cat" holds [1]; "ca" and "do" hold
    nothing; the prefix "ca" lists "cat" before "car", the order in which
    the edges were added; the prefix "do" lists "dog". *)
Example end_to_end_scenario :
  fst (lookup s_cat scenario) = Ok [1] /\
  fst (lookup s_ca scenario) = Ok [] /\
  fst (lookup s_do scenario) = Ok [] /\
  fst (prefix_search 1000 s_ca scenario) = Ok [(s_cat, [1]); (s_car, [2])] /\
  fst (prefix_search 1000 s_do scenario) = Ok [(s_dog, [3])].
Proof. vm_compute. split_and!; reflexivity. Qed.

(* ================================================================== *)
(** * The store as a tree, and what [insert] leaves alone *)

(** ** Growing a store *)

Lemma add_child_other (c : list Z) (pid b j : Z) (nd : Node) :
  wf_store c -> node_at c pid = Some nd ->
  find_child (children nd) b = None -> utf8_byte b -> nodes c < 65536 ->
  j <> pid -> j <> nodes c ->
  node_at (add_child c pid b nd) j = node_at c j.
Proof.
  intros Hwf Hat Hfind Hb Hroom Hj1 Hj2.
  pose proof Hwf as (Hal & Hn & Hall).
  pose proof (node_at_range c pid nd Hal Hat) as Hpid.
  destruct (Hall pid Hpid) as (nd0 & Hat0 & Hnd0).
  assert (nd0 = nd) as -> by congruence. clear Hat0.
  pose proof (wf_node_with_child _ pid b nd Hnd0 Hpid Hfind Hb) as Hnd1.
  assert (Henc1 : encodable (char (with_child nd b (nodes c)))
                    (values (with_child nd b (nodes c)))
                    (children (with_child nd b (nodes c))))
    by (eapply wf_node_encodable; eauto; lia).
  assert (Hencf : encodable (char (fresh_node b)) (values (fresh_node b))
                    (children (fresh_node b)))
    by (eapply (wf_node_encodable _ _ _ (wf_node_fresh (nodes c) b)); lia).
  destruct (nodes_store_node c pid _ Hal ltac:(lia) Henc1) as [Hal1 Hn1].
  unfold add_child.
  rewrite store_node_other;
    [| apply aligned_offset; [assumption|lia] | lia | assumption | assumption].
  apply store_node_other;
    [apply aligned_offset; [assumption|lia] | lia | assumption | assumption].
Qed.

Lemma grown_refl (c : list Z) :
  Z.of_nat (length c) = NODE_SIZE * nodes c -> grown c c.
Proof.
  intros Hal. split_and!.
  - apply extends_refl.
  - intros j nd Hj Hat. pose proof (node_at_range _ _ _ Hal Hat). lia.
  - intros j nd b m Hat Hin _. eauto.
Qed.

Lemma grown_trans (c1 c2 c3 : list Z) :
  wf_store c2 -> nodes c1 <= nodes c2 ->
  grown c1 c2 -> grown c2 c3 -> grown c1 c3.
Proof.
  intros Hwf2 Hle (He12 & Hn12 & Ho12) (He23 & Hn23 & Ho23). split_and!.
  - eapply extends_trans; eassumption.
  - intros j nd Hj Hat. destruct (Z.lt_ge_cases j (nodes c2)) as [Hlt|Hge].
    + destruct (Hwf2) as (Hal2 & _ & Hall2).
      destruct (Z.lt_ge_cases j 0) as [Hneg|Hpos].
      { unfold node_at, read_pure in Hat.
        replace (j <? 0) with true in Hat by lia. discriminate. }
      destruct (Hall2 j ltac:(lia)) as (nd2 & Hat2 & _).
      destruct (Hn12 j nd2 Hj Hat2) as [Ht Hv].
      destruct (He23 j nd2 Hat2) as (nd3 & Hat3 & Ht3 & Hv3 & _).
      assert (nd3 = nd) as -> by congruence. split; congruence.
    + apply (Hn23 j nd Hge Hat).
  - intros j nd3 b m Hat Hin Hm.
    destruct (Ho23 j nd3 b m Hat Hin ltac:(lia)) as (nd2 & Hat2 & Hin2).
    apply (Ho12 j nd2 b m Hat2 Hin2 Hm).
Qed.

Lemma grown_add_child (c : list Z) (pid b : Z) (nd : Node) :
  wf_store c -> node_at c pid = Some nd ->
  find_child (children nd) b = None -> utf8_byte b -> nodes c < 65536 ->
  grown c (add_child c pid b nd) /\
  (unique_parent c -> unique_parent (add_child c pid b nd)).
Proof.
  intros Hwf Hat Hfind Hb Hroom.
  destruct (wf_add_child _ _ _ _ Hwf Hat Hfind Hb Hroom)
    as (Hwf' & Hn' & Hp & Hf & Hext).
  pose proof (add_child_other c pid b) as Hother.
  specialize (fun j => Hother j nd Hwf Hat Hfind Hb Hroom).
  pose proof Hwf as (Hal & Hn & Hall).
  pose proof Hwf' as (Hal' & _ & _).
  set (c' := add_child c pid b nd) in *.
  (* every node of the new store is the new parent, the new child or old *)
  assert (Hcases : forall j nd',
            node_at c' j = Some nd' ->
            (j = pid /\ nd' = with_child nd b (nodes c)) \/
            (j = nodes c /\ nd' = fresh_node b) \/
            (j <> pid /\ j <> nodes c /\ node_at c j = Some nd')).
  { intros j nd' Hj. destruct (Z.eq_dec j pid) as [->|H1]; [left; split; congruence|].
    destruct (Z.eq_dec j (nodes c)) as [->|H2]; [right; left; split; congruence|].
    right. right. rewrite <- Hother by assumption. auto. }
  assert (Hold : forall j ndj e, node_at c j = Some ndj -> e ∈ children ndj ->
            snd e < nodes c).
  { intros j ndj e Hj He. pose proof (node_at_range _ _ _ Hal Hj) as Hjr.
    destruct (Hall j Hjr) as (nd0 & Hat0 & Hnd0).
    assert (nd0 = ndj) as -> by congruence.
    destruct Hnd0 as (_ & _ & _ & _ & _ & _ & Hcs).
    rewrite Forall_forall in Hcs. destruct (Hcs e He). lia. }
  split; [split_and!|].
  - exact Hext.
  - intros j nd' Hj Hj'.
    destruct (Hcases j nd' Hj') as [[-> _]|[[_ ->]|(_ & _ & Hc)]].
    + pose proof (node_at_range _ _ _ Hal Hat). lia.
    + auto.
    + pose proof (node_at_range _ _ _ Hal Hc). lia.
  - intros j nd' b' m Hj' Hin Hm.
    destruct (Hcases j nd' Hj') as [[-> ->]|[[_ ->]|(_ & _ & Hc)]].
    + exists nd. split; [assumption|]. cbn in Hin.
      apply elem_of_app in Hin as [Hin|Hin]; [assumption|].
      apply list_elem_of_singleton in Hin. injection Hin as -> ->. lia.
    + cbn in Hin. apply elem_of_nil in Hin as [].
    + eauto.
  - intros Huniq j1 j2 nd1 nd2 b1 b2 m Hj1 Hj2 Hin1 Hin2.
    assert (Hedge : forall j nd' b', node_at c' j = Some nd' ->
              (b', m) ∈ children nd' ->
              (m = nodes c /\ j = pid /\ b' = b) \/
              (m < nodes c /\ exists nd0, node_at c j = Some nd0 /\
                                          (b', m) ∈ children nd0)).
    { intros j nd' b' Hj Hin.
      destruct (Hcases j nd' Hj) as [[-> ->]|[[_ ->]|(_ & _ & Hc)]].
      - cbn in Hin. apply elem_of_app in Hin as [Hin|Hin].
        + right. split; [apply (Hold pid nd (b', m) Hat Hin) | eauto].
        + apply list_elem_of_singleton in Hin. injection Hin as -> ->. auto.
      - cbn in Hin. apply elem_of_nil in Hin as [].
      - right. split; [apply (Hold j nd' (b', m) Hc Hin) | eauto]. }
    destruct (Hedge j1 nd1 b1 Hj1 Hin1) as [(Hm1 & -> & ->)|(Hm1 & n1 & Hc1 & Hi1)];
      destruct (Hedge j2 nd2 b2 Hj2 Hin2) as [(Hm2 & -> & ->)|(Hm2 & n2 & Hc2 & Hi2)];
      try lia.
    apply (Huniq j1 j2 n1 n2 b1 b2 m); assumption.
Qed.

(** The loop of [insert], whatever the room left and however it ends. *)
Lemma insert_loop_grown (bs : list Z) :
  forall (f : File) (id : Z),
    wf_store (content f) -> 0 <= id < nodes (content f) ->
    Forall utf8_byte bs ->
    wf_store (content (snd (insert_loop bs id f))) /\
    nodes (content f) <= nodes (content (snd (insert_loop bs id f))) /\
    grown (content f) (content (snd (insert_loop bs id f))) /\
    (unique_parent (content f) ->
     unique_parent (content (snd (insert_loop bs id f)))) /\
    (forall n, fst (insert_loop bs id f) = Ok n ->
               walk (content (snd (insert_loop bs id f))) id bs = Some n).
Proof.
  induction bs as [|b bs IH]; intros f id Hwf Hid Hbs.
  - cbn. split_and!; auto; try lia.
    + apply grown_refl, Hwf.
    + intros n [= ->]. reflexivity.
  - apply Forall_cons in Hbs as [Hb Hbs].
    destruct (wf_node_at _ _ Hwf Hid) as (nd & Hat & Hnd).
    cbn [insert_loop walk]. unfold bind.
    destruct (find_child (children nd) b) as [m|] eqn:Hfind.
    + destruct (find_or_create_found f id b m nd Hat Hfind) as [p1 E].
      rewrite E. clear E.
      destruct (wf_child_range _ _ _ _ _ Hwf Hat Hfind) as [Hm _].
      destruct (IH (mkFile (content f) p1) m Hwf ltac:(cbn; lia) Hbs)
        as (Hwf' & Hn & Hg & Hu & Hw).
      cbn [content] in *. split_and!; try assumption.
      intros n Hrun. destruct Hg as (Hext & _).
      destruct (Hext id nd Hat) as (nd' & Hat' & _ & _ & Hcs).
      rewrite Hat', (Hcs b m Hfind). auto.
    + destruct (Z.eq_dec (nodes (content f)) 65536) as [Hfull|Hnot].
      * destruct (find_or_create_overflow f id b nd Hwf Hat Hfind Hb Hfull)
          as [p1 E].
        rewrite E. cbn [fst snd content]. split_and!; auto; try lia.
        -- apply grown_refl, Hwf.
        -- discriminate.
      * assert (Hlt : nodes (content f) < 65536)
          by (destruct Hwf as (_ & ? & _); lia).
        destruct (find_or_create_new f id b nd Hwf Hat Hfind Hb Hlt) as [p1 E].
        rewrite E. clear E.
        destruct (wf_add_child _ _ _ _ Hwf Hat Hfind Hb Hlt)
          as (Hwf1 & Hn1 & Hp1 & Hf1 & Hext1).
        destruct (grown_add_child _ _ _ _ Hwf Hat Hfind Hb Hlt) as [Hg1 Hu1].
        set (c1 := add_child (content f) id b nd) in *.
        set (n0 := nodes (content f)) in *.
        destruct (IH (mkFile c1 p1) n0 Hwf1 ltac:(cbn; lia) Hbs)
          as (Hwf' & Hn & Hg & Hu & Hw).
        cbn [content] in *. split_and!; try assumption; try lia.
        -- apply (grown_trans _ c1); [assumption | lia | assumption..].
        -- auto.
        -- intros n Hrun. destruct Hg as (Hext & _).
           destruct (Hext id _ Hp1) as (nd' & Hat' & _ & _ & Hcs).
           rewrite Hat', (Hcs b n0); [auto|].
           cbn. rewrite find_child_app, Hfind. cbn. rewrite Z.eqb_refl.
           reflexivity.
Qed.

(** A path of the grown store that ends on an old node is an old path. *)
Lemma walk_old (c c' : list Z) (t : list Z) :
  wf_store c -> wf_store c' -> grown c c' ->
  forall id m, walk c' id t = Some m -> m < nodes c -> walk c id t = Some m.
Proof.
  intros Hwf Hwf' (_ & _ & Hold).
  induction t as [|b t IH]; intros id m; cbn [walk]; [auto|].
  destruct (node_at c' id) as [nd'|] eqn:Hat'; [|discriminate].
  destruct (find_child (children nd') b) as [k|] eqn:Hfind; [|discriminate].
  intros Hwalk Hm.
  pose proof (walk_length _ _ Hwf' _ _ Hwalk) as Hk.
  destruct (Hold id nd' b k Hat' (find_child_Some _ _ _ Hfind) ltac:(lia))
    as (nd & Hat & Hin).
  rewrite Hat.
  pose proof Hwf as (Hal & _ & Hall).
  destruct (Hall id (node_at_range _ _ _ Hal Hat)) as (nd0 & Hat0 & Hnd0).
  assert (nd0 = nd) as -> by congruence.
  destruct Hnd0 as (_ & _ & _ & _ & _ & Hnodup & _).
  rewrite (find_child_elem _ _ _ Hnodup Hin). auto.
Qed.

(** Growing a store changes what no key holds. *)
Lemma grown_stored (c c' : list Z) (bs : list Z) :
  wf_store c -> wf_store c' -> grown c c' -> stored c' bs = stored c bs.
Proof.
  intros Hwf Hwf' Hg. pose proof Hg as (Hext & Hnew & _). unfold stored.
  destruct (walk c 0 bs) as [m|] eqn:Hwalk.
  - rewrite (walk_extends _ _ _ Hext _ _ Hwalk).
    pose proof (walk_range _ _ Hwf 0 m (root_range _ Hwf) Hwalk) as Hm.
    destruct (wf_node_at _ _ Hwf Hm) as (nd & Hat & _). rewrite Hat.
    destruct (Hext m nd Hat) as (nd' & -> & -> & -> & _). reflexivity.
  - destruct (walk c' 0 bs) as [m|] eqn:Hwalk'; [|reflexivity].
    pose proof (walk_range _ _ Hwf' 0 m (root_range _ Hwf') Hwalk') as Hm.
    destruct (wf_node_at _ _ Hwf' Hm) as (nd' & Hat' & _). rewrite Hat'.
    destruct (Z.lt_ge_cases m (nodes c)) as [Hlt|Hge].
    + rewrite (walk_old _ _ _ Hwf Hwf' Hg _ _ Hwalk' Hlt) in Hwalk.
      discriminate.
    + destruct (Hnew m nd' Hge Hat') as [-> _]. reflexivity.
Qed.

(** ** Paths are unique *)

Lemma walk_snoc (c : list Z) (s : list Z) (b : Z) (id m : Z) :
  walk c id (s ++ [b]) = Some m ->
  exists k nd, walk c id s = Some k /\ node_at c k = Some nd /\
               find_child (children nd) b = Some m.
Proof.
  intros Hwalk. destruct (walk_app _ _ _ _ _ Hwalk) as (k & Hs & Hb).
  cbn in Hb. destruct (node_at c k) as [nd|] eqn:Hat; [|discriminate].
  destruct (find_child (children nd) b) as [m'|] eqn:Hfind; [|discriminate].
  injection Hb as <-. exists k, nd. auto.
Qed.

(** In a tree, two keys that lead to the same node are the same key. *)
Lemma walk_inj (c : list Z) (s : list Z) :
  tree_store c ->
  forall t id m, walk c id s = Some m -> walk c id t = Some m -> s = t.
Proof.
  intros [Hwf Huniq]. induction s as [|b1 s IH] using rev_ind;
    intros t id m Hs Ht.
  - cbn in Hs. injection Hs as <-.
    pose proof (walk_length _ _ Hwf _ _ Ht) as Hlen.
    destruct t; [reflexivity | cbn in Hlen; lia].
  - destruct t as [|b2 t _] using rev_ind.
    + cbn in Ht. injection Ht as <-.
      pose proof (walk_length _ _ Hwf _ _ Hs) as Hlen.
      rewrite length_app in Hlen. cbn in Hlen. lia.
    + destruct (walk_snoc _ _ _ _ _ Hs) as (k1 & nd1 & Hw1 & Hat1 & Hf1).
      destruct (walk_snoc _ _ _ _ _ Ht) as (k2 & nd2 & Hw2 & Hat2 & Hf2).
      destruct (Huniq k1 k2 nd1 nd2 b1 b2 m Hat1 Hat2
                  (find_child_Some _ _ _ Hf1) (find_child_Some _ _ _ Hf2))
        as [-> ->].
      f_equal. apply (IH t id k2); assumption.
Qed.

(** ** Rewriting one node in place *)

Lemma update_stored (c c' : list Z) (n : Z) (nd nd' : Node) :
  unique_parent c ->
  node_at c n = Some nd -> node_at c' n = Some nd' ->
  children nd' = children nd ->
  (forall j, j <> n -> node_at c' j = node_at c j) ->
  unique_parent c' /\
  (forall t id, walk c' id t = walk c id t) /\
  (forall bs, walk c 0 bs <> Some n -> stored c' bs = stored c bs).
Proof.
  intros Huniq Hat Hat' Hcs Hother.
  assert (Hback : forall j ndj', node_at c' j = Some ndj' ->
            exists ndj, node_at c j = Some ndj /\ children ndj = children ndj').
  { intros j ndj' Hj. destruct (Z.eq_dec j n) as [->|Hne].
    - exists nd. split; congruence.
    - exists ndj'. rewrite <- Hother by assumption. auto. }
  assert (Hwalk : forall t id, walk c' id t = walk c id t).
  { induction t as [|b t IH]; intros id; cbn [walk]; [reflexivity|].
    destruct (Z.eq_dec id n) as [->|Hne].
    - rewrite Hat, Hat', Hcs. destruct (find_child _ _); auto.
    - rewrite Hother by assumption.
      destruct (node_at c id); [|reflexivity].
      destruct (find_child _ _); auto. }
  split_and!; [|exact Hwalk|].
  - intros j1 j2 nd1 nd2 b1 b2 m Hj1 Hj2 Hin1 Hin2.
    destruct (Hback j1 nd1 Hj1) as (n1 & Hc1 & He1).
    destruct (Hback j2 nd2 Hj2) as (n2 & Hc2 & He2).
    rewrite <- He1 in Hin1. rewrite <- He2 in Hin2.
    apply (Huniq j1 j2 n1 n2 b1 b2 m); assumption.
  - intros bs Hne. unfold stored. rewrite Hwalk.
    destruct (walk c 0 bs) as [m|]; [|reflexivity].
    rewrite Hother by congruence. reflexivity.
Qed.

(** ** What one call of [insert] does to what every key holds *)

(** [insert], whatever its arguments and however it ends, keeps the store a
    well-formed tree; when it returns, the key holds its earlier values with
    the value added by the rule of lines 88-90; every other key, and every
    key when it raises, holds what it held. *)
Lemma insert_effect (f : File) (w : str) (v : Z) :
  tree_store (content f) ->
  tree_store (content (snd (insert w v f))) /\
  (fst (insert w v f) = Ok tt ->
   forall bs, encode_utf8 w = Ok bs ->
     stored (content (snd (insert w v f))) bs
     = add_value (stored (content f) bs) v) /\
  (forall bs',
     (fst (insert w v f) = Ok tt -> encode_utf8 w <> Ok bs') ->
     stored (content (snd (insert w v f))) bs' = stored (content f) bs').
Proof.
  intros [Hwf Huniq]. unfold insert, bind, lift.
  destruct (encode_utf8 w) as [bs|e] eqn:Hw.
  2:{ cbn. split_and!; [split; assumption | discriminate | reflexivity]. }
  pose proof (encode_utf8_bytes _ _ Hw) as Hbs.
  destruct (insert_loop_grown bs f 0 Hwf (root_range _ Hwf) Hbs)
    as (Hwf1 & _ & Hg & Hu & Hw1).
  specialize (Hu Huniq).
  destruct (insert_loop bs 0 f) as [[n|e] f1] eqn:Hrun; cbn [fst snd] in *.
  2:{ split_and!; [split; assumption | discriminate |].
      intros bs' _. apply grown_stored; assumption. }
  specialize (Hw1 n eq_refl).
  pose proof (walk_range _ _ Hwf1 0 n (root_range _ Hwf1) Hw1) as Hn.
  destruct (wf_node_at _ _ Hwf1 Hn) as (nd1 & Hat1 & Hnd1).
  destruct (read_node_spec n f1) as [p E]. rewrite E. clear E.
  rewrite (node_at_read _ _ _ Hat1). cbn [subscript].
  pose proof Hnd1 as (Hch & Hlen & Hu32 & Hndv & Hterm & Hnd & Hcs).
  pose proof (pack_Is_inv (add_value (values nd1) v)) as Hp.
  destruct (pack_Is (add_value (values nd1) v)) as [packed|e] eqn:Hpack.
  2:{ rewrite (write_node_bad_value _ _ _ _ _ e)
        by auto using add_value_length.
      cbn [fst snd content].
      split_and!; [split; assumption | discriminate |].
      intros bs' _. apply grown_stored; assumption. }
  set (nd2 := mkNode (char nd1) true (add_value (values nd1) v) (children nd1)).
  assert (Hnd2 : wf_node (nodes (content f1)) n nd2).
  { unfold wf_node, nd2. cbn.
    split_and!; auto using add_value_length, add_value_nodup. discriminate. }
  assert (Henc : encodable (char nd1) (add_value (values nd1) v) (children nd1)).
  { apply (wf_node_encodable _ _ _ Hnd2); [lia|].
    destruct Hwf1 as (_ & ? & _). lia. }
  destruct (write_node_spec n (char nd1) true (add_value (values nd1) v)
              (children nd1) (mkFile (content f1) p) Henc ltac:(lia))
    as [p2 E].
  rewrite E. clear E. cbn [fst snd content].
  change (put (content f1) n _) with (store_node (content f1) n nd2).
  destruct (wf_update (content f1) n nd1 nd2 Hwf1 Hat1 Hnd2)
    as (Hwf2 & Hn2 & Hat2 & Hother).
  destruct (update_stored (content f1) (store_node (content f1) n nd2) n nd1 nd2
              Hu Hat1 Hat2 eq_refl Hother) as (Hu2 & Hwalk2 & Hst2).
  assert (Hvals : values nd1 = stored (content f) bs).
  { rewrite <- (grown_stored _ _ bs Hwf Hwf1 Hg). unfold stored.
    rewrite Hw1, Hat1. destruct (is_terminal nd1); auto. }
  split_and!.
  - split; assumption.
  - intros _ bs0 [= <-]. unfold stored. rewrite Hwalk2, Hw1, Hat2. cbn.
    rewrite Hvals. reflexivity.
  - intros bs' Hne. rewrite Hst2; [apply grown_stored; assumption|].
    intros Hw'. apply (Hne eq_refl). f_equal.
    apply (walk_inj (content f1) bs (conj Hwf1 Hu) bs' 0 n); assumption.
Qed.

(** ** Reachable stores are trees *)

Lemma tree_store0 : tree_store (content store0).
Proof.
  split; [exact wf_store0|].
  assert (Hroot : node_at (content store0) 0 = Some (fresh_node 0))
    by (vm_compute; reflexivity).
  assert (Hn : nodes (content store0) = 1) by (vm_compute; reflexivity).
  pose proof wf_store0 as (Hal & _ & _).
  intros j1 j2 nd1 nd2 b1 b2 m Hj1 _ Hin1 _.
  pose proof (node_at_range _ _ _ Hal Hj1) as Hr.
  assert (j1 = 0) as -> by lia.
  assert (nd1 = fresh_node 0) as -> by congruence.
  cbn in Hin1. apply elem_of_nil in Hin1 as [].
Qed.

Lemma reachable_tree (f : File) : reachable f -> tree_store (content f).
Proof.
  induction 1 as [|f w v _ IH|f w _ IH|f d w _ IH].
  - exact tree_store0.
  - apply insert_effect, IH.
  - rewrite read_only_lookup. exact IH.
  - rewrite read_only_prefix_search. exact IH.
Qed.

Lemma lookup_stored (f : File) (k : str) (bk : list Z) :
  wf_store (content f) -> encode_utf8 k = Ok bk ->
  fst (lookup k f) = Ok (stored (content f) bk).
Proof.
  intros Hwf Hk. destruct (lookup_wf f k bk Hwf Hk) as [p ->]. reflexivity.
Qed.

Lemma lookup_unencodable (f : File) (k : str) (e : exn) :
  encode_utf8 k = Raise e -> lookup k f = (Raise e, f).
Proof. intros Hk. unfold lookup, bind, lift. rewrite Hk. reflexivity. Qed.

(** X5: [lookup] of a key changes only through a call of [insert] that
    returns and was given that very key. In a reachable store, after any
    call of [insert] that raises, and after any call for a key with other
    bytes, [lookup] of the key returns what it returned before. *)
Theorem insert_leaves_other_keys (f : File) (w k : str) (v : Z) :
  reachable f ->
  (fst (insert w v f) = Ok tt -> encode_utf8 w <> encode_utf8 k) ->
  fst (lookup k (snd (insert w v f))) = fst (lookup k f).
Proof.
  intros Hreach Hne. pose proof (reachable_tree f Hreach) as Htree.
  destruct (insert_effect f w v Htree) as ([Hwf' _] & _ & Hframe).
  destruct (encode_utf8 k) as [bk|e] eqn:Hk.
  - rewrite (lookup_stored _ k bk Hwf' Hk), (lookup_stored f k bk (proj1 Htree) Hk).
    f_equal. apply Hframe. intros Hok. apply Hne, Hok.
  - rewrite !(lookup_unencodable _ k e Hk). reflexivity.
Qed.

Lemma insert_leaves_other_keys_witness :
  fst (lookup s_car (snd (insert s_cat 5 scenario))) = fst (lookup s_car scenario).
Proof.
  apply (insert_leaves_other_keys scenario s_cat s_car 5).
  - rewrite scenario_steps. do 3 apply reachable_insert. apply reachable_new.
  - intros _. vm_compute. discriminate.
Defined.

Lemma add_value_prefix (vs : list Z) (v : Z) : vs `prefix_of` add_value vs v.
Proof.
  unfold add_value. destruct (existsb _ _); [reflexivity|].
  destruct (_ <? _); [|reflexivity]. apply prefix_app_r. reflexivity.
Qed.

(** X6: no call of [insert] removes, replaces or reorders a value. In a
    reachable store, whatever the arguments of [insert] and however it ends,
    what [lookup] returned for a key before the call is the beginning of
    what it returns after it. *)
Theorem insert_keeps_values (f : File) (w k : str) (v : Z) (bk : list Z) :
  reachable f -> encode_utf8 k = Ok bk ->
  exists vs vs',
    fst (lookup k f) = Ok vs /\
    fst (lookup k (snd (insert w v f))) = Ok vs' /\
    vs `prefix_of` vs'.
Proof.
  intros Hreach Hk. pose proof (reachable_tree f Hreach) as Htree.
  destruct (insert_effect f w v Htree) as ([Hwf' _] & Hsame & Hframe).
  exists (stored (content f) bk), (stored (content (snd (insert w v f))) bk).
  split_and!; [apply lookup_stored; [apply Htree|assumption]
              | apply lookup_stored; assumption |].
  destruct (fst (insert w v f)) as [[]|e] eqn:Hrun.
  - destruct (encode_utf8 w) as [bw|e] eqn:Hw.
    + destruct (decide (bw = bk)) as [->|Hne].
      * rewrite (Hsame eq_refl bk eq_refl). apply add_value_prefix.
      * rewrite Hframe; [reflexivity|]. intros _ [= ?]. contradiction.
    + rewrite Hframe; [reflexivity|]. intros _. discriminate.
  - rewrite Hframe; [reflexivity|]. intros [=].
Qed.

Lemma insert_keeps_values_witness :
  exists vs vs',
    fst (lookup s_cat scenario) = Ok vs /\
    fst (lookup s_cat (snd (insert s_cat 5 scenario))) = Ok vs' /\
    vs `prefix_of` vs'.
Proof.
  apply (insert_keeps_values scenario s_cat s_cat 5 [99; 97; 116]).
  - rewrite scenario_steps. do 3 apply reachable_insert. apply reachable_new.
  - reflexivity.
Defined.

(** ** A history of inserts *)

Lemma encodes_to_spec (bk : list Z) (w : str) :
  encodes_to bk w = true <-> encode_utf8 w = Ok bk.
Proof.
  unfold encodes_to. destruct (encode_utf8 w) as [b|e].
  - rewrite bool_decide_eq_true. split; [intros ->; reflexivity | congruence].
  - split; discriminate.
Qed.

Lemma values_under_cons (bk : list Z) (w : str) (v : Z) (h : list (str * Z)) :
  values_under bk ((w, v) :: h)
  = if encodes_to bk w then v :: values_under bk h else values_under bk h.
Proof.
  unfold values_under. rewrite filter_cons. cbn [fst].
  destruct (encodes_to bk w); [rewrite decide_True by reflexivity
                              | rewrite decide_False by discriminate];
    reflexivity.
Qed.

Lemma insert_seq_stored (h : list (str * Z)) :
  forall f f' bk,
    tree_store (content f) -> insert_seq h f = (Ok tt, f') ->
    tree_store (content f') /\
    stored (content f') bk
    = fold_left add_value (values_under bk h) (stored (content f) bk).
Proof.
  induction h as [|[w v] h IH]; intros f f' bk Htree; cbn [insert_seq].
  - intros [= <-]. auto.
  - unfold bind. destruct (insert w v f) as [[[]|e] f1] eqn:Hrun; [|discriminate].
    intros Hrest.
    destruct (insert_effect f w v Htree) as (Htree1 & Hsame & Hframe).
    rewrite Hrun in Htree1, Hsame, Hframe. cbn [fst snd] in *.
    destruct (IH f1 f' bk Htree1 Hrest) as [Htree' Hst].
    split; [assumption|]. rewrite Hst, values_under_cons.
    destruct (encodes_to bk w) eqn:He.
    + apply encodes_to_spec in He. cbn [fold_left].
      rewrite (Hsame eq_refl bk He). reflexivity.
    + rewrite Hframe; [reflexivity|].
      intros _ Hw%encodes_to_spec. congruence.
Qed.

(** X7: [lookup] is determined by the history of inserts. When a list of
    (key, value) pairs has been inserted into a reachable store, every call
    returning, [lookup] of a key returns what it returned before followed by
    the values given to that key, in the order of the calls, each added by
    the rule of [insert] (skipped when already present or when eight are
    held). A key that no pair names keeps what it had: nothing, in a new
    store. *)
Theorem lookup_after_inserts (f f' : File) (h : list (str * Z)) (k : str)
    (bk : list Z) :
  reachable f -> insert_seq h f = (Ok tt, f') -> encode_utf8 k = Ok bk ->
  exists vs0,
    fst (lookup k f) = Ok vs0 /\
    fst (lookup k f') = Ok (fold_left add_value (values_under bk h) vs0) /\
    (values_under bk h = [] -> fst (lookup k f') = Ok vs0).
Proof.
  intros Hreach Hrun Hk. pose proof (reachable_tree f Hreach) as Htree.
  destruct (insert_seq_stored h f f' bk Htree Hrun) as [[Hwf' _] Hst].
  exists (stored (content f) bk).
  rewrite (lookup_stored f k bk (proj1 Htree) Hk), (lookup_stored f' k bk Hwf' Hk).
  rewrite Hst. split_and!; try reflexivity. intros ->. reflexivity.
Qed.

Lemma lookup_after_inserts_witness :
  exists f',
    insert_seq [(s_cat, 1); (s_car, 2); (s_cat, 3); (s_cat, 1)] store0
      = (Ok tt, f') /\
    fst (lookup s_cat f') = Ok [1; 3] /\ fst (lookup s_dog f') = Ok [].
Proof.
  assert (Hr : fst (insert_seq [(s_cat, 1); (s_car, 2); (s_cat, 3); (s_cat, 1)]
                      store0) = Ok tt) by (vm_compute; reflexivity).
  destruct (insert_seq [(s_cat, 1); (s_car, 2); (s_cat, 3); (s_cat, 1)] store0)
    as [r f'] eqn:Hrun.
  cbn [fst] in Hr. subst r. exists f'. split; [reflexivity|].
  destruct (lookup_after_inserts store0 f' _ s_cat [99; 97; 116]
              reachable_new Hrun eq_refl) as (vs0 & H0 & H1 & _).
  destruct (lookup_after_inserts store0 f' _ s_dog [100; 111; 103]
              reachable_new Hrun eq_refl) as (ws0 & G0 & _ & G1).
  assert (vs0 = []) as ->
    by (assert (E : fst (lookup s_cat store0) = Ok [])
          by (vm_compute; reflexivity); congruence).
  assert (ws0 = []) as ->
    by (assert (E : fst (lookup s_dog store0) = Ok [])
          by (vm_compute; reflexivity); congruence).
  split; [rewrite H1; vm_compute; reflexivity|].
  apply G1. vm_compute. reflexivity.
Defined.

(** ** What [prefix_search] returns, and when *)

Lemma dfs_sound_all (d : nat) : dfs_sound d.
Proof.
  induction d as [|d IH]; intros id path acc f res f' Hwf Hid; cbn [dfs];
    [discriminate|].
  destruct (wf_node_at _ _ Hwf Hid) as (nd0 & Hat0 & Hnd0).
  unfold bind. run_read. rewrite (node_at_read _ _ _ Hat0). cbn [subscript].
  set (acc0 := if is_terminal nd0 then acc ++ [(concat path, values nd0)]
               else acc).
  assert (Hacc0 : forall x, x ∈ acc0 ->
            x ∈ acc \/
            exists s m nd, x = (concat path ++ s, values nd) /\
              walk (content f) id s = Some m /\
              node_at (content f) m = Some nd /\ is_terminal nd = true).
  { intros x Hx. unfold acc0 in Hx.
    destruct (is_terminal nd0) eqn:Hterm; [|auto].
    apply elem_of_app in Hx as [Hx|Hx]; [auto|].
    apply list_elem_of_singleton in Hx as ->. right.
    exists [], id, nd0. rewrite app_nil_r. auto. }
  clearbody acc0.
  assert (Hall : Forall (fun e => find_child (children nd0) (fst e)
                                  = Some (snd e)) (children nd0)).
  { destruct Hnd0 as (_ & _ & _ & _ & _ & Hnodup & _).
    apply Forall_forall. intros [b k] He. cbn.
    apply find_child_elem; assumption. }
  revert Hall. generalize (children nd0) at 2 3. intros l.
  revert acc0 p Hacc0. induction l as [|e l IHl]; intros acc0 p Hacc0 Hall;
    cbn [foldM].
  - intros [= <- <-]. exact Hacc0.
  - apply Forall_cons in Hall as [He Hall]. unfold bind.
    destruct (dfs d (snd e) (path ++ [[fst e]]) acc0 (mkFile (content f) p))
      as [[r1|x] f1] eqn:E1; [|discriminate].
    pose proof (read_only_dfs d (snd e) (path ++ [[fst e]]) acc0
                  (mkFile (content f) p)) as Hc.
    rewrite E1 in Hc. cbn [snd content] in Hc.
    destruct (wf_child_range _ _ _ _ _ Hwf Hat0 He) as [Hk _].
    assert (Hr : 0 <= snd e < nodes (content (mkFile (content f) p)))
      by (cbn [content]; lia).
    pose proof (IH (snd e) (path ++ [[fst e]]) acc0 (mkFile (content f) p)
                  r1 f1 Hwf Hr E1) as H1.
    cbn [content] in H1.
    rewrite (file_eta f1), Hc. apply IHl; [|exact Hall].
    intros x Hx. destruct (H1 x Hx) as [Hx0|(s & m & nd & -> & Hw & Hat & Ht)];
      [auto|].
    right. exists (fst e :: s), m, nd. split_and!; try assumption.
    + rewrite concat_app. cbn. rewrite <- app_assoc. reflexivity.
    + cbn [walk]. rewrite Hat0, He. exact Hw.
Qed.

(** X8: [prefix_search] invents nothing. In a well-formed store, every
    entry it returns is the entry of a terminal node below the prefix: its
    key is the prefix followed by one character per byte of the path from
    the prefix's node to that node, and its values are that node's. When
    those bytes are one-byte characters the entry's key is a stored key and
    its values are what [lookup] of that key returns. *)
Theorem prefix_search_sound (f : File) (p : str) (bp : list Z) (depth : nat)
    (results : list (str * list Z)) (key : str) (vals : list Z) :
  wf_store (content f) -> encode_utf8 p = Ok bp ->
  fst (prefix_search depth p f) = Ok results -> (key, vals) ∈ results ->
  exists s m nd,
    key = p ++ s /\ vals = values nd /\
    walk (content f) 0 (bp ++ s) = Some m /\
    node_at (content f) m = Some nd /\ is_terminal nd = true /\
    (Forall ascii s -> fst (lookup key f) = Ok vals).
Proof.
  intros Hwf Hp Hrun Hin. unfold prefix_search, bind, lift in Hrun.
  rewrite Hp in Hrun.
  destruct (descend_wf bp f 0 Hwf (root_range _ Hwf)) as [p1 E1].
  rewrite E1 in Hrun. clear E1.
  destruct (walk (content f) 0 bp) as [k|] eqn:Hwp.
  2:{ cbn in Hrun. injection Hrun as <-. apply elem_of_nil in Hin as []. }
  pose proof (walk_range _ _ Hwf 0 k (root_range _ Hwf) Hwp) as Hk.
  destruct (dfs depth k (map (fun ch => [ch]) p) [] (mkFile (content f) p1))
    as [r f'] eqn:E2.
  cbn [fst] in Hrun. subst r.
  destruct (dfs_sound_all depth k (map (fun ch => [ch]) p) []
              (mkFile (content f) p1) results f' Hwf Hk E2 _ Hin)
    as [Hnil|(s & m & nd & Hx & Hw & Hat & Ht)].
  { apply elem_of_nil in Hnil as []. }
  cbn [content] in *. rewrite concat_singletons in Hx. injection Hx as -> ->.
  exists s, m, nd.
  pose proof (walk_app_inv _ _ _ _ _ _ Hwp Hw) as Hwalk.
  split_and!; try assumption; try reflexivity.
  intros Hs.
  rewrite (lookup_stored f (p ++ s) (bp ++ s) Hwf
             (encode_utf8_app _ _ _ _ Hp (encode_utf8_ascii s Hs))).
  rewrite (stored_node _ _ _ _ Hwalk Hat Ht). reflexivity.
Qed.

Lemma prefix_search_sound_witness :
  exists s m nd,
    s_cat = s_ca ++ s /\ [1] = values nd /\
    walk (content scenario) 0 (s_ca ++ s) = Some m /\
    node_at (content scenario) m = Some nd /\ is_terminal nd = true /\
    (Forall ascii s -> fst (lookup s_cat scenario) = Ok [1]).
Proof.
  apply (prefix_search_sound scenario s_ca s_ca 1000
           [(s_cat, [1]); (s_car, [2])]).
  - exact wf_scenario.
  - reflexivity.
  - vm_compute. reflexivity.
  - apply list_elem_of_here.
Defined.

(** A node of a well-formed store can be listed or is too deep: [dfs]
    returns or raises [RecursionError], nothing else. *)
Lemma dfs_outcome (d : nat) :
  forall id path acc f,
    wf_store (content f) -> 0 <= id < nodes (content f) ->
    exists r p, dfs d id path acc f = (r, mkFile (content f) p) /\
                (r = Raise RecursionError \/ exists res, r = Ok res).
Proof.
  induction d as [|d IH]; intros id path acc f Hwf Hid; cbn [dfs].
  - exists (Raise RecursionError), (pos f). unfold raise.
    rewrite <- file_eta. auto.
  - destruct (wf_node_at _ _ Hwf Hid) as (nd & Hat & Hnd).
    unfold bind. run_read. rewrite (node_at_read _ _ _ Hat). cbn [subscript].
    set (acc0 := if is_terminal nd then acc ++ [(concat path, values nd)]
                 else acc).
    clearbody acc0.
    assert (Hall : Forall (fun e => id < snd e < nodes (content f))
                     (children nd)).
    { destruct Hnd as (_ & _ & _ & _ & _ & _ & Hcs).
      eapply Forall_impl; [exact Hcs|]. intros e [_ ?]. assumption. }
    revert Hall. generalize (children nd). intros l.
    revert acc0 p. induction l as [|e l IHl]; intros acc0 p Hall; cbn [foldM].
    + eexists _, _. split; [reflexivity|]. eauto.
    + apply Forall_cons in Hall as [He Hall]. unfold bind.
      destruct (IH (snd e) (path ++ [[fst e]]) acc0 (mkFile (content f) p)
                  Hwf ltac:(cbn; lia)) as (r1 & p1 & E1 & [->|[res ->]]);
        rewrite E1; cbn [content].
      * eexists _, _. split; [reflexivity|]. auto.
      * apply IHl, Hall.
Qed.

(** A path as long as the allowance makes [dfs] raise. *)
Lemma dfs_deep (d : nat) :
  forall id path acc f t m,
    wf_store (content f) -> 0 <= id < nodes (content f) ->
    walk (content f) id t = Some m -> (d <= length t)%nat ->
    fst (dfs d id path acc f) = Raise RecursionError.
Proof.
  induction d as [|d IH]; intros id path acc f t m Hwf Hid Hwalk Hlen;
    cbn [dfs]; [reflexivity|].
  destruct t as [|b t]; [cbn in Hlen; lia|]. cbn [walk length] in Hwalk, Hlen.
  destruct (wf_node_at _ _ Hwf Hid) as (nd & Hat & Hnd).
  rewrite Hat in Hwalk.
  destruct (find_child (children nd) b) as [k|] eqn:Hfind; [|discriminate].
  unfold bind. run_read. rewrite (node_at_read _ _ _ Hat). cbn [subscript].
  set (acc0 := if is_terminal nd then acc ++ [(concat path, values nd)]
               else acc).
  clearbody acc0.
  pose proof (find_child_Some _ _ _ Hfind) as Hin.
  assert (Hall : Forall (fun e => id < snd e < nodes (content f))
                   (children nd)).
  { destruct Hnd as (_ & _ & _ & _ & _ & _ & Hcs).
    eapply Forall_impl; [exact Hcs|]. intros e [_ ?]. assumption. }
  revert Hin Hall. generalize (children nd). intros l.
  revert acc0 p. induction l as [|e l IHl]; intros acc0 p Hin Hall;
    cbn [foldM].
  - apply elem_of_nil in Hin as [].
  - apply Forall_cons in Hall as [He Hall]. unfold bind.
    destruct (dfs_outcome d (snd e) (path ++ [[fst e]]) acc0
                (mkFile (content f) p) Hwf ltac:(cbn; lia))
      as (r1 & p1 & E1 & [->|[res ->]]).
    + rewrite E1. reflexivity.
    + apply elem_of_cons in Hin as [<-|Hin].
      * pose proof (IH k (path ++ [[b]]) acc0 (mkFile (content f) p) t m
                      Hwf ltac:(cbn in *; lia) Hwalk ltac:(lia)) as Hraise.
        cbn [fst snd] in E1. rewrite E1 in Hraise. discriminate Hraise.
      * rewrite E1. cbn [content]. apply IHl; assumption.
Qed.

(** X9: when [prefix_search] returns. For a prefix that is not stored (a
    byte has no edge) it returns the empty list, whatever the recursion
    allowance. For a stored prefix in a well-formed store it returns when
    every path below the prefix's node is shorter than the allowance, and
    raises [RecursionError] when some path below it is as long as the
    allowance or longer. *)
Theorem prefix_search_outcome (f : File) (p : str) (bp : list Z)
    (depth : nat) :
  wf_store (content f) -> encode_utf8 p = Ok bp ->
  (walk (content f) 0 bp = None -> fst (prefix_search depth p f) = Ok []) /\
  (forall k, walk (content f) 0 bp = Some k ->
     ((forall t m, walk (content f) k t = Some m -> (length t < depth)%nat) ->
      exists results, fst (prefix_search depth p f) = Ok results) /\
     (forall t m, walk (content f) k t = Some m -> (depth <= length t)%nat ->
      fst (prefix_search depth p f) = Raise RecursionError)).
Proof.
  intros Hwf Hp. unfold prefix_search, bind, lift. rewrite Hp.
  destruct (descend_wf bp f 0 Hwf (root_range _ Hwf)) as [p1 E1].
  rewrite E1. clear E1. split.
  - intros ->. reflexivity.
  - intros k Hwp. rewrite Hwp.
    pose proof (walk_range _ _ Hwf 0 k (root_range _ Hwf) Hwp) as Hk. split.
    + intros Hshort.
      destruct (dfs_total depth k (map (fun ch => [ch]) p) []
                  (mkFile (content f) p1) Hwf Hk Hshort) as (res & p2 & ->).
      eauto.
    + intros t m Hwalk Hlen.
      apply (dfs_deep depth k _ _ (mkFile (content f) p1) t m); assumption.
Qed.

Lemma prefix_search_outcome_witness :
  fst (prefix_search 2 s_do scenario) = Ok [(s_dog, [3])] /\
  fst (prefix_search 1 s_do scenario) = Raise RecursionError /\
  fst (prefix_search 0 [120] scenario) = Ok [].
Proof.
  destruct (prefix_search_outcome scenario s_do s_do 1 wf_scenario eq_refl)
    as [_ Hdeep].
  destruct (prefix_search_outcome scenario [120] [120] 0 wf_scenario eq_refl)
    as [Hmiss _].
  split_and!.
  - vm_compute. reflexivity.
  - apply (proj2 (Hdeep 6 ltac:(vm_compute; reflexivity)) [103] 7);
      [vm_compute; reflexivity | cbn; lia].
  - apply Hmiss. vm_compute. reflexivity.
Defined.

(** ** Values that do not fit 32 bits *)

(** With room for the key, the loop of [insert] ends on a node whose
    values are what [lookup] reported for the key. *)
Lemma insert_loop_node (f : File) (bs : list Z) :
  wf_store (content f) -> Forall utf8_byte bs ->
  nodes (content f) + new_nodes (content f) 0 bs <= 65536 ->
  exists f1 n nd1,
    insert_loop bs 0 f = (Ok n, f1) /\ wf_store (content f1) /\
    node_at (content f1) n = Some nd1 /\
    wf_node (nodes (content f1)) n nd1 /\
    0 <= n < nodes (content f1) /\
    values nd1 = stored (content f) bs.
Proof.
  intros Hwf Hbs Hroom.
  destruct (insert_loop_ok bs f 0 Hwf (root_range _ Hwf) Hbs Hroom)
    as (c1 & n & p1 & Hrun & Hwf1 & Hext & Hn1 & Hwalk1 & Hsame & Hnone).
  pose proof (walk_range _ _ Hwf1 0 n (root_range _ Hwf1) Hwalk1) as Hn.
  destruct (wf_node_at _ _ Hwf1 Hn) as (nd1 & Hat1 & Hnd1).
  exists (mkFile c1 p1), n, nd1. cbn [content].
  split_and!; try assumption; try lia.
  unfold stored. destruct (walk (content f) 0 bs) as [n0|] eqn:Hwalk0.
  - rewrite (Hsame ltac:(eauto)) in *.
    assert (n0 = n) as -> by congruence. rewrite Hat1.
    destruct (is_terminal nd1) eqn:Hterm; [reflexivity|].
    destruct Hnd1 as (_ & _ & _ & _ & Hempty & _). auto.
  - destruct (Hnone eq_refl) as (nd & Hat & _ & Hvals). congruence.
Qed.

(** X10: a value outside 0..2^32-1. In a reachable store with room for the
    key, [insert] of such a value raises the error of [struct.pack_into]
    when the key holds fewer than eight values, and returns normally, the
    value dropped, when it holds eight; either way [lookup] of every key
    returns afterwards what it returned before. *)
Theorem insert_value_out_of_range (f : File) (w : str) (v : Z) (bs : list Z) :
  reachable f -> encode_utf8 w = Ok bs -> ~ u32 v ->
  nodes (content f) + new_nodes (content f) 0 bs <= 65536 ->
  ((length (stored (content f) bs) < 8)%nat ->
   fst (insert w v f) = Raise StructError) /\
  (length (stored (content f) bs) = 8%nat -> fst (insert w v f) = Ok tt) /\
  (forall k, fst (lookup k (snd (insert w v f))) = fst (lookup k f)).
Proof.
  intros Hreach Hw Hv Hroom.
  pose proof (reachable_tree f Hreach) as [Hwf Huniq].
  pose proof (encode_utf8_bytes _ _ Hw) as Hbs.
  destruct (insert_loop_node f bs Hwf Hbs Hroom)
    as (f1 & n & nd1 & Hrun & Hwf1 & Hat1 & Hnd1 & Hn & Hvals).
  pose proof Hnd1 as (Hch & Hlen & Hu32 & Hndv & Hterm & Hnd & Hcs).
  assert (Hnew : existsb (Z.eqb v) (values nd1) = false).
  { apply not_true_is_false. intros Hin%existsb_eqb.
    rewrite Forall_forall in Hu32. exact (Hv (Hu32 v Hin)). }
  assert (Hfst : fst (insert w v f)
                 = fst (_write_node n (char nd1) true
                          (add_value (values nd1) v) (children nd1) f1
                        : result unit * File)).
  { unfold insert, bind, lift. rewrite Hw, Hrun.
    destruct (read_node_spec n f1) as [p E]. rewrite E.
    rewrite (node_at_read _ _ _ Hat1). cbn [subscript].
    unfold _write_node, bind, lift.
    destruct (encode_node _ _ _ _); [|reflexivity].
    unfold seek. cbn [content]. destruct (_ <? _); reflexivity. }
  assert (Hlow : (length (stored (content f) bs) < 8)%nat ->
                 fst (insert w v f) = Raise StructError).
  { intros Hlt. rewrite Hfst. rewrite <- Hvals in Hlt.
    assert (Hadd : add_value (values nd1) v = values nd1 ++ [v]).
    { unfold add_value, MAX_VALUES. rewrite Hnew.
      destruct (Z.ltb_spec (Z.of_nat (length (values nd1))) 8); [reflexivity|lia]. }
    pose proof (pack_Is_inv (add_value (values nd1) v)) as Hp.
    destruct (pack_Is (add_value (values nd1) v)) as [packed|e] eqn:Hpack.
    - rewrite Hadd in Hp. apply Forall_app in Hp as [_ Hp].
      apply Forall_inv in Hp. contradiction.
    - subst e. rewrite (write_node_bad_value _ _ _ _ _ StructError)
        by auto using add_value_length.
      reflexivity. }
  assert (Hfull : length (stored (content f) bs) = 8%nat ->
                  fst (insert w v f) = Ok tt
                  /\ add_value (stored (content f) bs) v = stored (content f) bs).
  { intros Heq. rewrite Hfst. rewrite <- Hvals in *.
    assert (Hadd : add_value (values nd1) v = values nd1).
    { unfold add_value, MAX_VALUES. rewrite Hnew.
      destruct (Z.ltb_spec (Z.of_nat (length (values nd1))) 8); [lia|reflexivity]. }
    rewrite Hadd. split; [|reflexivity].
    assert (Henc : encodable (char nd1) (values nd1) (children nd1)).
    { apply (wf_node_encodable _ _ _ Hnd1); [lia|].
      destruct Hwf1 as (_ & ? & _). lia. }
    destruct (write_node_spec n (char nd1) true (values nd1) (children nd1)
                f1 Henc ltac:(lia)) as [p2 ->].
    reflexivity. }
  split_and!; [exact Hlow | intros Heq; apply Hfull, Heq |].
  intros k.
  destruct (insert_effect f w v (conj Hwf Huniq)) as ([Hwf' _] & Hsame & Hframe).
  destruct (encode_utf8 k) as [bk|e] eqn:Hk;
    [|rewrite !(lookup_unencodable _ k e Hk); reflexivity].
  rewrite (lookup_stored _ k bk Hwf' Hk), (lookup_stored f k bk Hwf Hk).
  f_equal.
  destruct (decide (bk = bs)) as [->|Hne].
  - pose proof (stored_wf _ bs Hwf) as [_ Hle].
    destruct (Nat.lt_ge_cases (length (stored (content f) bs)) 8) as [Hlt|Hge].
    + apply Hframe. intros Hok. rewrite (Hlow Hlt) in Hok. discriminate.
    + destruct (Hfull ltac:(lia)) as [Hok Hkeep].
      rewrite (Hsame Hok bs Hw). exact Hkeep.
  - apply Hframe. intros _. rewrite Hw. intros [= ?]. congruence.
Qed.

Lemma insert_value_out_of_range_witness :
  fst (insert s_cat (-1) scenario) = Raise StructError /\
  fst (lookup s_cat (snd (insert s_cat (-1) scenario))) = fst (lookup s_cat scenario).
Proof.
  destruct (insert_value_out_of_range scenario s_cat (-1) [99; 97; 116])
    as (Hlow & _ & Hall).
  - rewrite scenario_steps. do 3 apply reachable_insert. apply reachable_new.
  - reflexivity.
  - unfold u32. lia.
  - vm_compute. discriminate.
  - split; [apply Hlow; vm_compute; lia | apply Hall].
Defined.

(** ** How much [insert] allocates *)

Lemma new_nodes_bounds (c : list Z) (bs : list Z) :
  forall id, 0 <= new_nodes c id bs <= Z.of_nat (length bs).
Proof.
  induction bs as [|b bs IH]; intros id; cbn [new_nodes length]; [lia|].
  destruct (node_at c id) as [nd|]; [|lia].
  destruct (find_child (children nd) b) as [m|]; [|lia].
  specialize (IH m). lia.
Qed.

(** X11: what [insert] allocates. In a well-formed store, for a value of
    32 bits and with room under the ceiling, [insert] returns and appends
    one record of 1024 bytes for each byte of the key after the longest
    beginning of the key that is already a path: none when the key's path
    exists, at most one per byte, and none again for the same key. *)
Theorem insert_allocates (f : File) (w : str) (v : Z) (bs : list Z) :
  wf_store (content f) -> encode_utf8 w = Ok bs -> u32 v ->
  nodes (content f) + new_nodes (content f) 0 bs <= 65536 ->
  exists f',
    insert w v f = (Ok tt, f') /\
    nodes (content f') = nodes (content f) + new_nodes (content f) 0 bs /\
    Z.of_nat (length (content f'))
      = Z.of_nat (length (content f))
        + NODE_SIZE * new_nodes (content f) 0 bs /\
    0 <= new_nodes (content f) 0 bs <= Z.of_nat (length bs) /\
    (is_Some (walk (content f) 0 bs) -> new_nodes (content f) 0 bs = 0) /\
    new_nodes (content f') 0 bs = 0.
Proof.
  intros Hwf Hw Hv Hroom.
  destruct (insert_ok f w v bs Hwf Hw Hv Hroom)
    as (c' & p & n & nd & Hrun & Hwf' & Hn & _ & Hwalk & _).
  exists (mkFile c' p). cbn [content].
  pose proof Hwf as (Hal & _). pose proof Hwf' as (Hal' & _).
  split_and!; try assumption.
  - rewrite Hal, Hal', Hn. lia.
  - apply new_nodes_bounds.
  - apply new_nodes_bounds.
  - apply new_nodes_walk.
  - apply new_nodes_walk. eauto.
Qed.

Lemma insert_allocates_witness :
  exists f',
    insert [99; 97; 98] 4 scenario = (Ok tt, f') /\
    nodes (content f') = nodes (content scenario) + 1.
Proof.
  destruct (insert_allocates scenario [99; 97; 98] 4 [99; 97; 98])
    as (f' & Hrun & Hn & _).
  - exact wf_scenario.
  - reflexivity.
  - unfold u32. lia.
  - vm_compute. discriminate.
  - exists f'. split; [exact Hrun|]. rewrite Hn.
    vm_compute. reflexivity.
Defined.

(** ** Opening a store *)

(** X12: [__init__]. On an empty file it writes one record, the root:
    afterwards the store is well formed with one node, not terminal and
    without children, so [lookup] returns the empty list for every key and
    [prefix_search] for every prefix. On a file that is not empty it writes
    nothing. *)
Theorem init_new_store (f : File) :
  (content f = [] ->
   exists f', __init__ f = (Ok tt, f') /\
     wf_store (content f') /\ nodes (content f') = 1 /\
     node_at (content f') 0 = Some (fresh_node 0) /\
     forall k bk, encode_utf8 k = Ok bk ->
       fst (lookup k f') = Ok [] /\
       forall depth, fst (prefix_search (S depth) k f') = Ok []) /\
  (content f <> [] -> __init__ f = (Ok tt, f)).
Proof.
  split.
  - intros Hempty.
    assert (Henc : encodable [0] [] [])
      by (apply (wf_node_encodable _ _ _ (wf_node_fresh 0 0)); lia).
    unfold __init__. rewrite Hempty. cbn [length Nat.eqb].
    destruct (write_node_spec 0 [0] false [] [] f Henc ltac:(lia)) as [p E].
    rewrite E, Hempty. eexists. split; [reflexivity|]. cbn [content].
    assert (Ec : put [] 0 (layout [0] false [] []) = content store0)
      by (vm_compute; reflexivity).
    rewrite Ec.
    assert (Hroot : node_at (content store0) 0 = Some (fresh_node 0))
      by (vm_compute; reflexivity).
    assert (Hn : nodes (content store0) = 1) by (vm_compute; reflexivity).
    split_and!; [exact wf_store0 | exact Hn | exact Hroot |].
    intros k bk Hk.
    assert (Hwalk : forall t, t <> [] -> walk (content store0) 0 t = None).
    { intros [|b t] Ht; [congruence|]. cbn [walk]. rewrite Hroot. reflexivity. }
    split.
    + rewrite (lookup_stored (mkFile (content store0) p) k bk wf_store0 Hk).
      cbn [content]. unfold stored. destruct bk as [|b bk].
      * cbn [walk]. rewrite Hroot. reflexivity.
      * rewrite Hwalk by discriminate. reflexivity.
    + intros depth. unfold prefix_search, bind, lift. rewrite Hk.
      destruct (descend_wf bk (mkFile (content store0) p) 0 wf_store0
                  ltac:(cbn [content]; lia)) as [p1 E1].
      rewrite E1. cbn [content]. destruct bk as [|b bk].
      * cbn [walk dfs]. unfold bind. run_read.
        rewrite (node_at_read _ _ _ Hroot). reflexivity.
      * rewrite Hwalk by discriminate. reflexivity.
  - intros Hne. unfold __init__. destruct (content f); [congruence|].
    reflexivity.
Qed.

Lemma init_new_store_witness :
  exists f', __init__ empty_file = (Ok tt, f') /\
    nodes (content f') = 1 /\ fst (lookup s_cat f') = Ok [] /\
    fst (prefix_search 1 s_cat f') = Ok [].
Proof.
  destruct (init_new_store empty_file) as [Hnew _].
  destruct (Hnew eq_refl) as (f' & Hrun & _ & Hn & _ & Hall).
  exists f'. destruct (Hall s_cat [99; 97; 116] eq_refl) as [Hl Hp].
  split_and!; [exact Hrun | exact Hn | exact Hl | exact (Hp 0%nat)].
Defined.


(** ** Loading a file of lines *)

Lemma sublist_full {A} (l1 l2 : list A) :
  l1 `sublist_of` l2 -> (length l2 <= length l1)%nat -> l1 = l2.
Proof.
  induction 1 as [|x l1 l2 Hsub IH|x l1 l2 Hsub IH]; cbn [length]; intros Hle.
  - reflexivity.
  - f_equal. apply IH. lia.
  - apply sublist_length in Hsub. lia.
Qed.

Lemma bulk_insert_reachable (strip : str -> str) (py_int : str -> result Z)
    (lines : list str) :
  forall f, reachable f -> reachable (snd (bulk_insert strip py_int lines f)).
Proof.
  induction lines as [|line rest IH]; intros f Hf; cbn [bulk_insert snd];
    [assumption|].
  unfold insert_line, bind, lift.
  destruct (parse_line strip py_int line) as [[w v]|e]; cbn [fst snd].
  - pose proof (reachable_insert f w v Hf) as Hf1.
    destruct (insert w v f) as [[u|e] f1]; cbn [snd] in *; auto.
  - auto.
Qed.

Lemma bulk_insert_stored (strip : str -> str) (py_int : str -> result Z)
    (lines : list str) :
  forall f, tree_store (content f) ->
    exists h,
      h `sublist_of` parsed strip py_int lines /\
      (length h + length (fst (bulk_insert strip py_int lines f))
       = length lines)%nat /\
      forall bk,
        stored (content (snd (bulk_insert strip py_int lines f))) bk
        = fold_left add_value (values_under bk h) (stored (content f) bk).
Proof.
  induction lines as [|line rest IH]; intros f Htree;
    cbn [bulk_insert parsed].
  - exists []. cbn. auto.
  - unfold insert_line, bind, lift.
    destruct (parse_line strip py_int line) as [[w v]|e]; cbn [fst snd].
    + destruct (insert_effect f w v Htree) as (Htree1 & Hsame & Hframe).
      destruct (insert w v f) as [[[]|e] f1] eqn:Hrun; cbn [fst snd] in *;
        destruct (IH f1 Htree1) as (h & Hsub & Hlen & Hst).
      * exists ((w, v) :: h). split_and!.
        -- apply sublist_skip, Hsub.
        -- cbn [length]. lia.
        -- intros bk. rewrite Hst, values_under_cons.
           destruct (encodes_to bk w) eqn:He.
           ++ apply encodes_to_spec in He. cbn [fold_left].
              rewrite (Hsame eq_refl bk He). reflexivity.
           ++ rewrite Hframe; [reflexivity|].
              intros _ Hw%encodes_to_spec. congruence.
      * exists h. split_and!.
        -- apply sublist_cons, Hsub.
        -- cbn [length]. lia.
        -- intros bk. rewrite Hst, Hframe; [reflexivity|]. discriminate.
    + destruct (IH f Htree) as (h & Hsub & Hlen & Hst).
      exists h. split_and!; [exact Hsub | cbn [length]; lia | exact Hst].
Qed.

(** X13: [bulk_insert] on a reachable store, whatever the lines. It raises
    nothing and leaves a reachable store. Some of the (word, value) pairs
    that the lines parse to, in the order of the lines, have been inserted,
    and each other line has been printed as failed; [lookup] of a key
    returns afterwards what it returned before followed by the values of
    the inserted pairs of that key, each added by the rule of [insert]. A
    failed line changes the result of no [lookup]; when nothing was
    printed, every line was inserted. *)
Theorem bulk_insert_spec (strip : str -> str) (py_int : str -> result Z)
    (lines : list str) (f : File) :
  reachable f ->
  reachable (snd (bulk_insert strip py_int lines f)) /\
  exists h,
    h `sublist_of` parsed strip py_int lines /\
    (length h + length (fst (bulk_insert strip py_int lines f))
     = length lines)%nat /\
    (fst (bulk_insert strip py_int lines f) = [] ->
     h = parsed strip py_int lines /\ length h = length lines) /\
    forall k bk, encode_utf8 k = Ok bk ->
      exists vs0,
        fst (lookup k f) = Ok vs0 /\
        fst (lookup k (snd (bulk_insert strip py_int lines f)))
        = Ok (fold_left add_value (values_under bk h) vs0).
Proof.
  intros Hreach.
  pose proof (bulk_insert_reachable strip py_int lines f Hreach) as Hreach'.
  split; [exact Hreach'|].
  pose proof (reachable_tree f Hreach) as Htree.
  pose proof (reachable_tree _ Hreach') as Htree'.
  destruct (bulk_insert_stored strip py_int lines f Htree)
    as (h & Hsub & Hlen & Hst).
  exists h. split_and!; [exact Hsub | exact Hlen | |].
  - intros Hlog. rewrite Hlog in Hlen. cbn [length] in Hlen.
    assert (Hp : (length (parsed strip py_int lines) <= length lines)%nat).
    { clear. induction lines as [|l ls IH]; cbn [parsed length]; [lia|].
      destruct (parse_line strip py_int l); cbn [length]; lia. }
    pose proof (sublist_length _ _ Hsub) as Hle.
    split; [|lia]. apply sublist_full; [exact Hsub | lia].
  - intros k bk Hk. exists (stored (content f) bk).
    rewrite (lookup_stored f k bk (proj1 Htree) Hk),
      (lookup_stored _ k bk (proj1 Htree') Hk), Hst.
    split; reflexivity.
Qed.

Lemma bulk_insert_spec_witness :
  reachable (snd (bulk_insert ascii_strip decimal sample_lines store0)) /\
  map snd (fst (bulk_insert ascii_strip decimal sample_lines store0))
    = [ValueError; ValueError] /\
  fst (lookup s_cat (snd (bulk_insert ascii_strip decimal sample_lines store0)))
    = Ok [1; 7].
Proof.
  destruct (bulk_insert_spec ascii_strip decimal sample_lines store0
              reachable_new) as (Hreach & h & Hsub & Hlen & _ & Hlook).
  split_and!; [exact Hreach | vm_compute; reflexivity |].
  destruct (Hlook s_cat [99; 97; 116] eq_refl) as (vs0 & H0 & H1).
  vm_compute. reflexivity.
Defined.
